(** * The realtime voice assistant client, as an event-driven state machine

    A shallow embedding of the script of
    [src/examples/realtime_voice_assistant.vue]: the refs declared in
    [setup()] become the fields of one record, every handler becomes a
    function on that record, and the browser (sockets, timers, the audio
    element, the clock, the page) is the environment that delivers events and
    records the calls the script makes on it.

    JavaScript runs each handler to completion, so a run of the component is
    a list of events, each handled by [step].  An [await] splits a function
    in two: the part after it is the handler of the event that ends the
    wait.  The template contributes which controls are disabled, the order
    of [v-model] and [@change], and the classes it renders. *)

From Stdlib Require Import ZArith QArith Lia.
From stdpp Require Import base option list strings pretty.

Open Scope string_scope.
Open Scope Z_scope.
Open Scope list_scope.

(** ** Values exchanged with the platform *)

(** A field of a decoded JSON message: a string, or [None] when the field is
    absent ([undefined]).  Strings stand for JavaScript strings, one
    character for one code unit. *)
Definition field := option string.

(** [`${v}`] and [s + v]: the text of a field inside a template literal. *)
Definition js_str (v : field) : string := default "undefined" v.

(** Truthiness of a field, as tested by [if (message.audio_url)]. *)
Definition truthy (v : field) : bool :=
  match v with
  | Some u => negb (String.eqb u "")
  | None => false
  end.

(** The one-character string holding a double quote. *)
Definition dquote : string := String (Ascii.ascii_of_nat 34) EmptyString.

(** [a || b] on strings. *)
Definition js_or (a b : string) : string :=
  if String.eqb a "" then b else a.

(** [readyState] of a WebSocket. *)
Inductive ReadyState := CONNECTING | OPEN | CLOSING | CLOSED.

(** One WebSocket object.  [connectionTimeout] is the timer that the call of
    [connectWebSocket] which created the socket started, and which the
    socket's [onopen] closure clears. *)
Record WebSocket := mkWebSocket {
  readyState : ReadyState;
  connectionTimeout : nat
}.

(** What a pending timer runs when it fires. *)
Inductive TimerKind :=
| TGrace              (* the 500 ms wait inside connectWebSocket *)
| TConnectionTimeout  (* the 5000 ms connection timeout *)
| TReconnect          (* a scheduled reconnect: runs connectWebSocket *)
| THeartbeat          (* setInterval of startHeartbeat, 10000 ms *)
| TProgress.          (* setInterval of startProgressUpdate, 100 ms *)

Record Timer := mkTimer {
  timer_id : nat;
  timer_kind : TimerKind;
  timer_delay : Z
}.

(** Frames the script sends ([JSON.stringify] of these objects). *)
Inductive OutFrame :=
| Ping (timestamp : Z)
| StartCommand (server_url : string)
| StopCommand
| SetParams (model history_id : string).

(** Calls made on the platform.  The [trace] of a state lists the calls made
    so far, the latest first. *)
Inductive Effect :=
| NewWebSocket (id : nat) (url : string)
| SocketClose (id : nat)                 (* close() with no argument *)
| SocketSend (id : nat) (f : OutFrame)
| SetTimeout (id : nat) (k : TimerKind) (delay : Z)
| SetInterval (id : nat) (k : TimerKind) (delay : Z)
| ClearTimer (id : nat)
| FetchModels
| FetchNewHistory
| AudioPlay (src : string)               (* src assigned, then play() *)
| ConsoleError (what : string).

(** Decoded inbound frames, by the [type] discriminant. *)
Inductive Message :=
| MConnection (client_id : field)
| MStart (status : field)
| MStop (status : field)
| MRecognitionResult (text : field)
| MLLMStreamChunk (content : field)
| MLLMResponse (audio_url : field)
| MError (message : field)
| MTTSSentenceComplete (text : field) (audio_url : field)
| MOther.                                (* any other type: no case matches *)

(** [event.data] of a message event: text on which [JSON.parse] or the read
    of [message.type] throws the given error, or a decoded message. *)
Inductive Data :=
| Malformed (error : string)
| Decoded (m : Message).

(** The outcome of a [fetch] and of reading the answer: the [fetch] or
    [response.json()] rejects, the answer has a status that is not ok, or
    the answer is ok and decodes; [body] is then what the script reads from
    the decoded answer. *)
Inductive FetchResult (A : Type) :=
| FetchRejected (error : string)
| FetchNotOk
| FetchOk (body : A).
Arguments FetchRejected {A} error.
Arguments FetchNotOk {A}.
Arguments FetchOk {A} body.

(** ** Data of the component *)

Record AudioSegment := mkSegment {
  url : string;
  text : string
}.

Record ConversationEntry := mkEntry {
  entry_text : field;
  sender : string;
  className : string
}.

(** The hidden [<audio>] element behind the template ref [audioPlayer]. *)
Record AudioElement := mkAudio {
  src : option string;
  currentTime : Q;
  duration : option Q      (* None: NaN, nothing loaded *)
}.

Record Clock := mkClock {
  date_now : Z;                (* Date.now() *)
  localeTime : string          (* new Date().toLocaleTimeString() *)
}.

Inductive Phase := Created | Mounted | Unmounted.

(** The parts of the platform that do not change while the page lives. *)
Record Platform := mkPlatform {
  location_protocol : string;  (* window.location.protocol *)
  location_hostname : string;  (* window.location.hostname *)
  ws_url_error : string -> option string;
      (* new WebSocket(url): None when it accepts the URL, the error it
         throws otherwise *)
  document_other : list string
      (* classes of the elements of the page outside this component *)
}.

Definition maxReconnectAttempts : Z := 3.
Definition reconnectDelay : Z := 1000.

Record State := mkState {
  (* refs of setup() *)
  apiUrl : string;
  socket : option nat;                 (* index into [sockets], or null *)
  isConnected : bool;
  isVoiceChatting : bool;
  isSpeaking : bool;
  clientId : field;
  historyId : string;
  selectedModel : string;
  availableModels : option (list string);  (* None: undefined *)
  audioQueue : list AudioSegment;
  currentAudio : option AudioSegment;
  audioPlayer : option AudioElement;   (* null unless mounted *)
  isPlaying : bool;
  audioProgress : Q;
  statusText : string;
  connectionStatusText : string;
  connectionStatusClass : string;
  conversationHistory : list ConversationEntry;
  logs : list string;
  reconnectCount : Z;
  (* let-bound timer handles *)
  heartbeatInterval : option nat;
  progressInterval : option nat;
  (* the platform *)
  phase : Phase;
  sockets : list WebSocket;            (* every socket created so far *)
  timers : list Timer;                 (* pending timers *)
  nextTimer : nat;                     (* the next timer id, never 0 *)
  clock : Clock;
  platform : Platform;
  trace : list Effect
}.

(** *** Field updates *)

Definition eta_State (s : State) : State :=
  mkState (apiUrl s) (socket s) (isConnected s) (isVoiceChatting s)
    (isSpeaking s) (clientId s) (historyId s) (selectedModel s)
    (availableModels s) (audioQueue s) (currentAudio s) (audioPlayer s)
    (isPlaying s) (audioProgress s) (statusText s) (connectionStatusText s)
    (connectionStatusClass s) (conversationHistory s) (logs s)
    (reconnectCount s) (heartbeatInterval s) (progressInterval s) (phase s)
    (sockets s) (timers s) (nextTimer s) (clock s) (platform s) (trace s).

(** [assign f] builds [fun v s => s with field f := v]. *)
Ltac assign f :=
  let T := match type of f with State -> ?T => T end in
  exact (fun (v : T) (s : State) =>
    ltac:(let e := eval cbv beta delta [eta_State] in (eta_State s) in
          match e with
          | context C [f s] => let e' := context C [v] in exact e'
          end)).

Definition set_apiUrl := ltac:(assign apiUrl).
Definition set_socket := ltac:(assign socket).
Definition set_isConnected := ltac:(assign isConnected).
Definition set_isVoiceChatting := ltac:(assign isVoiceChatting).
Definition set_isSpeaking := ltac:(assign isSpeaking).
Definition set_clientId := ltac:(assign clientId).
Definition set_historyId := ltac:(assign historyId).
Definition set_selectedModel := ltac:(assign selectedModel).
Definition set_availableModels := ltac:(assign availableModels).
Definition set_audioQueue := ltac:(assign audioQueue).
Definition set_currentAudio := ltac:(assign currentAudio).
Definition set_audioPlayer := ltac:(assign audioPlayer).
Definition set_isPlaying := ltac:(assign isPlaying).
Definition set_audioProgress := ltac:(assign audioProgress).
Definition set_statusText := ltac:(assign statusText).
Definition set_connectionStatusText := ltac:(assign connectionStatusText).
Definition set_connectionStatusClass := ltac:(assign connectionStatusClass).
Definition set_conversationHistory := ltac:(assign conversationHistory).
Definition set_logs := ltac:(assign logs).
Definition set_reconnectCount := ltac:(assign reconnectCount).
Definition set_heartbeatInterval := ltac:(assign heartbeatInterval).
Definition set_progressInterval := ltac:(assign progressInterval).
Definition set_phase := ltac:(assign phase).
Definition set_sockets := ltac:(assign sockets).
Definition set_timers := ltac:(assign timers).
Definition set_nextTimer := ltac:(assign nextTimer).
Definition set_clock := ltac:(assign clock).
Definition set_trace := ltac:(assign trace).

(** ** Calls on the platform *)

Definition emit (e : Effect) (s : State) : State :=
  set_trace (e :: trace s) s.

Definition setTimeout (k : TimerKind) (delay : Z) (s : State) : State :=
  let id := nextTimer s in
  emit (SetTimeout id k delay)
    (set_nextTimer (S id) (set_timers (timers s ++ [mkTimer id k delay]) s)).

Definition setInterval (k : TimerKind) (delay : Z) (s : State) : State :=
  let id := nextTimer s in
  emit (SetInterval id k delay)
    (set_nextTimer (S id) (set_timers (timers s ++ [mkTimer id k delay]) s)).

(** [clearTimeout(id)] and [clearInterval(id)]. *)
Definition clearTimer (id : nat) (s : State) : State :=
  emit (ClearTimer id)
    (set_timers (filter (fun t => timer_id t <> id) (timers s)) s).

(** A timer handle is truthy unless it is null or 0. *)
Definition handle_truthy (h : option nat) : option nat :=
  match h with
  | Some id => if Nat.eqb id 0 then None else Some id
  | None => None
  end.

(** [readyState] after [close()]. *)
Definition closing (r : ReadyState) : ReadyState :=
  match r with
  | CONNECTING | OPEN => CLOSING
  | CLOSING => CLOSING
  | CLOSED => CLOSED
  end.

Definition set_readyState (r : ReadyState) (w : WebSocket) : WebSocket :=
  mkWebSocket r (connectionTimeout w).

(** [sockets[i].close()]: no code, no reason. *)
Definition socket_close (i : nat) (s : State) : State :=
  emit (SocketClose i)
    (set_sockets
       (alter (fun w => set_readyState (closing (readyState w)) w) i (sockets s))
       s).

Definition socket_send (i : nat) (f : OutFrame) (s : State) : State :=
  emit (SocketSend i f) s.

Definition is_open (r : ReadyState) : bool :=
  match r with OPEN => true | _ => false end.

(** [socket.value && socket.value.readyState === WebSocket.OPEN]: the open
    socket, if there is one. *)
Definition openSocket (s : State) : option nat :=
  match socket s with
  | Some i =>
      match sockets s !! i with
      | Some w => if is_open (readyState w) then Some i else None
      | None => None
      end
  | None => None
  end.

(** ** 工具函数 *)

Definition updateConnectionStatus (text status : string) (s : State) : State :=
  set_connectionStatusClass status (set_connectionStatusText text s).

Definition updateStatus (message : string) (s : State) : State :=
  set_statusText message s.

Definition addToLog (message : string) (s : State) : State :=
  let timeStr := localeTime (clock s) in
  set_logs (logs s ++ ["[" +:+ timeStr +:+ "] " +:+ message]) s.

Definition addMessageToConversation
    (text : field) (sender className : string) (s : State) : State :=
  set_conversationHistory
    (conversationHistory s ++ [mkEntry text sender className]) s.

(** [a += b] where [a] is a string or undefined. *)
Definition js_plus (a b : field) : field :=
  match a, b with
  | None, None => Some "NaN"
  | _, _ => Some (js_str a +:+ js_str b)
  end.

Definition is_building (e : ConversationEntry) : bool :=
  String.eqb (className e) "assistant-response-building".

(** [l.find(p)] followed by a mutation [f] of the entry found. *)
Fixpoint update_first {A : Type} (p : A -> bool) (f : A -> A) (l : list A)
    : list A :=
  match l with
  | [] => []
  | x :: l' => if p x then f x :: l' else x :: update_first p f l'
  end.

Definition appendToLastMessage (text : field) (s : State) : State :=
  set_conversationHistory
    (update_first is_building
       (fun e => mkEntry (js_plus (entry_text e) text) (sender e) (className e))
       (conversationHistory s))
    s.

(** ** 心跳检测 *)

Definition stopHeartbeat (s : State) : State :=
  match handle_truthy (heartbeatInterval s) with
  | Some id => set_heartbeatInterval None (clearTimer id s)
  | None => s
  end.

Definition startHeartbeat (s : State) : State :=
  let s := stopHeartbeat s in
  let id := nextTimer s in
  set_heartbeatInterval (Some id) (setInterval THeartbeat 10000 s).

(** The callback of the heartbeat interval. *)
Definition heartbeatTick (s : State) : State :=
  match openSocket s with
  | Some i => socket_send i (Ping (date_now (clock s))) s
  | None => stopHeartbeat s
  end.

(** ** Connection *)

Definition fetchAvailableModels (s : State) : State := emit FetchModels s.

Definition handleConnectionError (error : string) (s : State) : State :=
  let s := addToLog ("连接错误: " +:+ error) s in
  let s := updateConnectionStatus "连接失败" "disconnected" s in
  (* 尝试重连 *)
  if reconnectCount s <? maxReconnectAttempts then
    let s := set_reconnectCount (reconnectCount s + 1) s in
    let delay := reconnectDelay * reconnectCount s in
    let s :=
      addToLog ("将在 " +:+ pretty (delay / 1000) +:+ " 秒后尝试重连("
                +:+ pretty (reconnectCount s) +:+ "/"
                +:+ pretty maxReconnectAttempts +:+ ")...") s in
    setTimeout TReconnect delay s
  else s.

Definition handleDisconnect (code : Z) (reason : string) (s : State) : State :=
  let s := stopHeartbeat s in
  let s := set_isConnected false s in
  let s := set_isVoiceChatting false s in
  let s := set_isSpeaking false s in
  let reason := js_or reason "未知原因" in
  let s := updateConnectionStatus "未连接" "disconnected" s in
  let s :=
    addToLog ("WebSocket连接已关闭 - 代码: " +:+ pretty code
              +:+ ", 原因: " +:+ reason) s in
  (* 如果不是用户主动关闭，尝试重连 *)
  if negb (code =? 1000) && (reconnectCount s <? maxReconnectAttempts) then
    let s := set_reconnectCount (reconnectCount s + 1) s in
    let delay := reconnectDelay * reconnectCount s in
    let s :=
      addToLog ("将在 " +:+ pretty (delay / 1000) +:+ " 秒后尝试重连("
                +:+ pretty (reconnectCount s) +:+ "/"
                +:+ pretty maxReconnectAttempts +:+ ")...") s in
    setTimeout TReconnect delay s
  else s.

(** The [onopen] closure of socket [w]. *)
Definition onopen (w : WebSocket) (s : State) : State :=
  let s := clearTimer (connectionTimeout w) s in
  let s := set_isConnected true s in
  let s := set_reconnectCount 0 s in
  let s := updateConnectionStatus "已连接" "connected" s in
  let s := addToLog "WebSocket连接已建立" s in
  let s := fetchAvailableModels s in
  startHeartbeat s.

(** [connectWebSocket] from [updateConnectionStatus] on: what runs at once
    when [socket.value] is null, and after the wait otherwise.  The
    constructor may throw, which the [catch] hands to
    [handleConnectionError]. *)
Definition connectWebSocket_open (s : State) : State :=
  let s := updateConnectionStatus "正在连接..." "processing" s in
  let s := addToLog "正在连接服务器..." s in
  match ws_url_error (platform s) (apiUrl s) with
  | Some error => handleConnectionError error s
  | None =>
      let i := length (sockets s) in
      let s := emit (NewWebSocket i (apiUrl s)) s in
      let s :=
        set_sockets (sockets s ++ [mkWebSocket CONNECTING (nextTimer s)]) s in
      let s := set_socket (Some i) s in
      (* 设置较短的连接超时 *)
      setTimeout TConnectionTimeout 5000 s
  end.

Definition connectWebSocket (s : State) : State :=
  match socket s with
  | Some i =>
      let s := socket_close i s in
      setTimeout TGrace 500 s          (* await, then [afterGrace] *)
  | None => connectWebSocket_open s
  end.

(** The rest of [connectWebSocket] once the 500 ms have passed. *)
Definition afterGrace (s : State) : State :=
  connectWebSocket_open (set_socket None s).

(** The callback of the connection timeout. *)
Definition connectionTimedOut (s : State) : State :=
  match socket s with
  | Some i =>
      match openSocket s with
      | Some _ => s
      | None => handleConnectionError "连接超时" (socket_close i s)
      end
  | None => s
  end.

Definition disconnectWebSocket (s : State) : State :=
  match socket s with
  | Some i => socket_close i s
  | None => s
  end.

(** ** 语音聊天功能 *)

Definition startVoiceChat (s : State) : State :=
  match openSocket s with
  | None => addToLog "WebSocket未连接" s
  | Some i =>
      let s := socket_send i (StartCommand "ws://127.0.0.1:8765") s in
      let s := set_isVoiceChatting true s in
      updateStatus "开始实时语音对话..." s
  end.

Definition stopVoiceChat (s : State) : State :=
  match openSocket s with
  | None => s
  | Some i =>
      let s := socket_send i StopCommand s in
      let s := set_isVoiceChatting false s in
      let s := set_isSpeaking false s in
      updateStatus "已停止语音对话" s
  end.

(** ** 音频播放相关 *)

Definition set_src (u : string) (a : AudioElement) : AudioElement :=
  mkAudio (Some u) (currentTime a) (duration a).

Definition playNextAudio (s : State) : State :=
  match audioQueue s with
  | head :: _ =>
      if isPlaying s then s
      else
        let s := set_isPlaying true s in
        let s := set_currentAudio (Some head) s in
        let s := set_audioProgress 0%Q s in
        (* 设置音频源并播放 *)
        match audioPlayer s with
        | Some a =>
            emit (AudioPlay (url head))
              (set_audioPlayer (Some (set_src (url head) a)) s)
        | None => s
        end
  | [] => s
  end.

Definition onAudioEnded (s : State) : State :=
  let s := addToLog "音频播放完成" s in
  let s := set_audioQueue (tail (audioQueue s)) s in
  let s := set_currentAudio None s in
  let s := set_isPlaying false s in
  (* 继续播放队列中的下一个 *)
  playNextAudio s.

(** [error.message] is the argument: absent on the element's error event,
    the text of the rejection when [play()] fails. *)
Definition onAudioError (message : field) (s : State) : State :=
  let s := addToLog ("音频播放错误: " +:+ js_or (default "" message) "未知错误") s in
  let s := set_audioQueue (tail (audioQueue s)) s in
  let s := set_currentAudio None s in
  let s := set_isPlaying false s in
  (* 尝试播放下一个 *)
  playNextAudio s.

(** The [catch] of the promise that [play()] returned. *)
Definition playRejected (message : field) (s : State) : State :=
  onAudioError message (emit (ConsoleError "播放音频失败:") s).

Definition startProgressUpdate (s : State) : State :=
  let s :=
    match handle_truthy (progressInterval s) with
    | Some id => clearTimer id s
    | None => s
    end in
  let id := nextTimer s in
  set_progressInterval (Some id) (setInterval TProgress 100 s).

Definition onAudioCanPlay (s : State) : State :=
  startProgressUpdate (set_audioProgress 0%Q s).

(** The callback of the progress interval.  Exact rationals stand for the
    doubles of the source. *)
Definition progressTick (s : State) : State :=
  match audioPlayer s with
  | Some a =>
      match duration a with
      | Some d =>
          if Qeq_bool d 0 then s
          else set_audioProgress (currentTime a / d * 100)%Q s
      | None => s
      end
  | None => s
  end.

Definition fullUrl (s : State) (audio_url : string) : string :=
  location_protocol (platform s) +:+ "//" +:+ location_hostname (platform s)
  +:+ ":8000" +:+ audio_url.

Definition playAudioResponse (audio_url : string) (s : State) : State :=
  let s :=
    set_audioQueue (audioQueue s ++ [mkSegment (fullUrl s audio_url) "语音回复"]) s in
  match currentAudio s with
  | None => playNextAudio s
  | Some _ => s
  end.

(** ** 服务器消息处理 *)

(** How a handler called inside [try] ends: normally, or by throwing. *)
Inductive Completion :=
| Normal (s : State)
| Throw (error : string) (s : State).

Definition handleRecognitionResult (text : field) (s : State) : State :=
  let s := addMessageToConversation text "user" "" s in
  let s := updateStatus ("已识别: " +:+ js_str text) s in
  set_isSpeaking false s.

(** The classes that the template renders for a state. *)
Definition renderedClasses (s : State) : list string :=
  match phase s with
  | Mounted =>
      ["card"; "config-row"; "btn-group"; "neutral"; "secondary"; "status";
       "config-panel"; "primary"; "conversation"; "audio-queue"; "log"]
      ++ String.words (connectionStatusClass s)
      ++ (if isVoiceChatting s
          then ["voice-status"; "status-text"; "voice-indicator"]
               ++ (if isSpeaking s then ["active"] else [])
          else [])
      ++ map (fun m => if String.eqb (sender m) "user"
                       then "user-message" else "assistant-message")
             (conversationHistory s)
      ++ (if isPlaying s
          then ["playing-status"; "audio-progress"; "progress-bar"; "progress"]
          else [])
      ++ (if (0 <? Z.of_nat (length (audioQueue s))) && negb (isPlaying s)
          then ["queue-status"] else [])
  | _ => []
  end.

(** [document.querySelector('.' + c)] is not null. *)
Definition querySelector_class (c : string) (s : State) : bool :=
  bool_decide (c ∈ (document_other (platform s) ++ renderedClasses s)%list).

Definition handleLLMStreamChunk (content : field) (s : State) : State :=
  let s :=
    if negb (querySelector_class "assistant-response-building" s)
    then addMessageToConversation (Some "") "assistant"
           "assistant-response-building" s
    else s in
  appendToLastMessage content s.

Definition handleLLMResponse (audio_url : field) (s : State) : State :=
  if truthy audio_url then playAudioResponse (js_str audio_url) s else s.

Definition handleError (message : field) (s : State) : State :=
  let s := addToLog ("错误: " +:+ js_str message) s in
  updateStatus ("错误: " +:+ js_str message) s.

(** [message.text.substring(0, 20)] throws when [text] is absent. *)
Definition handleTTSSentenceComplete (text audio_url : field) (s : State)
    : Completion :=
  if truthy audio_url then
    match text with
    | None =>
        Throw "TypeError: Cannot read properties of undefined (reading 'substring')" s
    | Some t =>
        let s := addToLog ("收到TTS音频: " +:+ String.substring 0 20 t +:+ "...") s in
        (* 添加到音频队列 *)
        let s :=
          set_audioQueue
            (audioQueue s ++ [mkSegment (fullUrl s (js_str audio_url)) t]) s in
        (* 如果没有正在播放的音频，开始播放 *)
        Normal (if isPlaying s then s else playNextAudio s)
    end
  else Normal s.

Definition dispatch (m : Message) (s : State) : Completion :=
  match m with
  | MConnection client_id =>
      let s := set_clientId client_id s in
      Normal (addToLog ("连接成功，客户端ID: " +:+ js_str (clientId s)) s)
  | MStart status =>
      Normal (if bool_decide (status = Some "success")
              then addToLog "实时语音对话已启动" s else s)
  | MStop status =>
      Normal (if bool_decide (status = Some "success")
              then addToLog "实时语音对话已停止" s else s)
  | MRecognitionResult text => Normal (handleRecognitionResult text s)
  | MLLMStreamChunk content => Normal (handleLLMStreamChunk content s)
  | MLLMResponse audio_url => Normal (handleLLMResponse audio_url s)
  | MError message => Normal (handleError message s)
  | MTTSSentenceComplete text audio_url =>
      handleTTSSentenceComplete text audio_url s
  | MOther => Normal s
  end.

(** The state in which a handler ends, however it ends. *)
Definition outcome (c : Completion) : State :=
  match c with
  | Normal s => s
  | Throw _ s => s
  end.

(** The [catch] of [handleServerMessage]. *)
Definition messageError (error : string) (s : State) : State :=
  addToLog ("处理消息错误: " +:+ error) (emit (ConsoleError "处理消息错误:") s).

Definition handleServerMessage (data : Data) (s : State) : State :=
  match data with
  | Malformed error => messageError error s
  | Decoded m =>
      match dispatch m s with
      | Normal s' => s'
      | Throw error s' => messageError error s'
      end
  end.

(** ** 模型和历史记录相关 *)

Definition updateParams (s : State) : State :=
  match openSocket s with
  | None => addToLog "WebSocket未连接，无法更新参数" s
  | Some i =>
      if String.eqb (selectedModel s) "" then addToLog "警告: 未选择模型" s
      else if String.eqb (historyId s) "" then
        addToLog "警告: 未设置对话历史ID" s
      else
        let s := socket_send i (SetParams (selectedModel s) (historyId s)) s in
        addToLog "已更新会话参数" s
  end.

(** The continuation of [fetchAvailableModels] after its [fetch].  The
    body is [data['available-models']]: a list, or undefined when the answer
    has no such key.  Undefined is stored all the same, after which reading
    its first element throws, inside the [try]. *)
Definition modelsFetched (r : FetchResult (option (list string))) (s : State)
    : State :=
  match r with
  | FetchOk body =>
      let s := set_availableModels body s in
      match availableModels s with
      | Some models => set_selectedModel (js_or (default "" (head models)) "") s
      | None =>
          addToLog
            ("获取模型列表失败: "
             +:+ "TypeError: Cannot read properties of undefined (reading '0')")
            s
      end
  | FetchNotOk => s
  | FetchRejected error => addToLog ("获取模型列表失败: " +:+ error) s
  end.

Definition createNewHistory (s : State) : State := emit FetchNewHistory s.

(** The continuation of [createNewHistory] after its [fetch]. *)
Definition historyCreated (r : FetchResult string) (s : State) : State :=
  match r with
  | FetchOk history_id =>
      let s := set_historyId history_id s in
      let s := addToLog ("创建了新对话，ID: " +:+ historyId s) s in
      updateParams s
  | FetchNotOk => s
  | FetchRejected error => addToLog ("创建对话失败: " +:+ error) s
  end.

(** ** 生命周期钩子 *)

Definition emptyAudio : AudioElement := mkAudio None 0%Q None.

(** The template is rendered, which binds the ref [audioPlayer], and the
    [onMounted] hook runs. *)
Definition mounted (s : State) : State :=
  let s := set_phase Mounted (set_audioPlayer (Some emptyAudio) s) in
  addToLog ("页面已加载，请点击" +:+ dquote +:+ "连接服务器" +:+ dquote +:+ "开始") s.

(** The [onUnmounted] hook; the ref [audioPlayer] goes back to null. *)
Definition unmounted (s : State) : State :=
  let s := stopHeartbeat s in
  let s :=
    match socket s with
    | Some i => socket_close i s
    | None => s
    end in
  let s :=
    match handle_truthy (progressInterval s) with
    | Some id => clearTimer id s
    | None => s
    end in
  set_phase Unmounted (set_audioPlayer None s).

(** 计算属性 *)
Definition startBtnDisabled (s : State) : bool :=
  negb (isConnected s) || String.eqb (historyId s) ""
  || String.eqb (selectedModel s) "" || isVoiceChatting s.

(** ** The event loop *)

Inductive Event :=
(* the component's life *)
| EvMounted
| EvUnmounted
(* the user *)
| EvInputApiUrl (v : string)
| EvClickConnect
| EvClickDisconnect
| EvChangeModel (v : string)
| EvInputHistoryId (v : string)
| EvChangeHistoryId
| EvClickNewHistory
| EvClickStart
| EvClickStop
(* socket [i] *)
| EvOpen (i : nat)
| EvClose (i : nat) (code : Z) (reason : string)
| EvError (i : nat)
| EvMessage (i : nat) (data : Data)
(* timers and the clock *)
| EvTimer (id : nat)
| EvClock (c : Clock)
(* the audio element *)
| EvMediaTime (t : Q) (d : option Q)
| EvAudioEnded
| EvAudioError
| EvAudioCanPlay
| EvPlayRejected (message : field)
(* answers to fetch *)
| EvModelsFetched (r : FetchResult (option (list string)))
| EvHistoryCreated (r : FetchResult string).

(** The options that the [select] of the template offers: [v-for] renders
    none for undefined. *)
Definition modelOptions (s : State) : list string :=
  default [] (availableModels s).

(** A control of the template reacts when the component is mounted and the
    control is not disabled. *)
Definition ui (enabled : bool) (handler : State -> State) (s : State) : State :=
  match phase s with
  | Mounted => if enabled then handler s else s
  | _ => s
  end.

(** An event of socket [i] is delivered when the socket's [readyState]
    allows it; the socket then moves to [r] and the handler runs. *)
Definition socketEvent (i : nat) (allowed : ReadyState -> bool)
    (r : ReadyState -> ReadyState) (handler : WebSocket -> State -> State)
    (s : State) : State :=
  match sockets s !! i with
  | Some w =>
      if allowed (readyState w)
      then handler w
             (set_sockets (<[i := set_readyState (r (readyState w)) w]> (sockets s)) s)
      else s
  | None => s
  end.

Definition is_connecting (r : ReadyState) : bool :=
  match r with CONNECTING => true | _ => false end.

Definition not_closed (r : ReadyState) : bool :=
  match r with CLOSED => false | _ => true end.

Definition receiving (r : ReadyState) : bool :=
  match r with OPEN | CLOSING => true | _ => false end.

(** A timeout leaves the pending timers when it fires. *)
Definition expire (id : nat) (s : State) : State :=
  set_timers (filter (fun t => timer_id t <> id) (timers s)) s.

Definition timerFired (id : nat) (s : State) : State :=
  match List.find (fun t => Nat.eqb (timer_id t) id) (timers s) with
  | Some t =>
      match timer_kind t with
      | TGrace => afterGrace (expire id s)
      | TConnectionTimeout => connectionTimedOut (expire id s)
      | TReconnect => connectWebSocket (expire id s)
      | THeartbeat => heartbeatTick s
      | TProgress => progressTick s
      end
  | None => s
  end.

(** The audio element fires its events once it has a source. *)
Definition audioEvent (handler : State -> State) (s : State) : State :=
  match audioPlayer s with
  | Some a => if bool_decide (src a = None) then s else handler s
  | None => s
  end.

Definition has_effect (p : Effect -> bool) (s : State) : bool :=
  existsb p (trace s).

Definition is_play (e : Effect) : bool :=
  match e with AudioPlay _ => true | _ => false end.
Definition is_fetch_models (e : Effect) : bool :=
  match e with FetchModels => true | _ => false end.
Definition is_fetch_history (e : Effect) : bool :=
  match e with FetchNewHistory => true | _ => false end.

Definition step (s : State) (ev : Event) : State :=
  match ev with
  | EvMounted => match phase s with Created => mounted s | _ => s end
  | EvUnmounted => match phase s with Mounted => unmounted s | _ => s end
  | EvInputApiUrl v => ui true (set_apiUrl v) s
  | EvClickConnect => ui (negb (isConnected s)) connectWebSocket s
  | EvClickDisconnect => ui (isConnected s) disconnectWebSocket s
  | EvChangeModel v =>
      ui (bool_decide (v ∈ modelOptions s))
         (fun s => updateParams (set_selectedModel v s)) s
  | EvInputHistoryId v => ui true (set_historyId v) s
  | EvChangeHistoryId => ui true updateParams s
  | EvClickNewHistory => ui (isConnected s) createNewHistory s
  | EvClickStart => ui (negb (startBtnDisabled s)) startVoiceChat s
  | EvClickStop => ui (isVoiceChatting s) stopVoiceChat s
  | EvOpen i => socketEvent i is_connecting (fun _ => OPEN) onopen s
  | EvClose i code reason =>
      socketEvent i not_closed (fun _ => CLOSED)
        (fun _ => handleDisconnect code reason) s
  | EvError i =>
      socketEvent i not_closed (fun r => r)
        (fun _ => handleConnectionError "[object Event]") s
  | EvMessage i data =>
      socketEvent i receiving (fun r => r) (fun _ => handleServerMessage data) s
  | EvTimer id => timerFired id s
  | EvClock c => set_clock c s
  | EvMediaTime t d =>
      match audioPlayer s with
      | Some a => set_audioPlayer (Some (mkAudio (src a) t d)) s
      | None => s
      end
  | EvAudioEnded => audioEvent onAudioEnded s
  | EvAudioError => audioEvent (onAudioError None) s
  | EvAudioCanPlay => audioEvent onAudioCanPlay s
  | EvPlayRejected message =>
      if has_effect is_play s then playRejected message s else s
  | EvModelsFetched r =>
      if has_effect is_fetch_models s then modelsFetched r s else s
  | EvHistoryCreated r =>
      if has_effect is_fetch_history s then historyCreated r s else s
  end.

(** The state when [setup()] returns. *)
Definition init (p : Platform) (c : Clock) : State :=
  {| apiUrl := "ws://localhost:8000/ws/realtime-voice-chat";
     socket := None;
     isConnected := false;
     isVoiceChatting := false;
     isSpeaking := false;
     clientId := None;
     historyId := "";
     selectedModel := "";
     availableModels := Some [];
     audioQueue := [];
     currentAudio := None;
     audioPlayer := None;
     isPlaying := false;
     audioProgress := 0%Q;
     statusText := "等待连接...";
     connectionStatusText := "未连接";
     connectionStatusClass := "disconnected";
     conversationHistory := [];
     logs := [];
     reconnectCount := 0;
     heartbeatInterval := None;
     progressInterval := None;
     phase := Created;
     sockets := [];
     timers := [];
     nextTimer := 1;
     clock := c;
     platform := p;
     trace := [] |}.

Definition run (s : State) (evs : list Event) : State := fold_left step evs s.

(** A page at http://localhost whose URLs are all accepted, and a clock. *)
Definition localhost : Platform :=
  mkPlatform "http:" "localhost" (fun _ => None) [].
Definition noon : Clock := mkClock 0 "12:00:00".
Definition start : State := init localhost noon.

(** ** Observations on states and runs *)

(** The calls made on the platform between [s] and a later state [s'], the
    latest first. *)
Definition newEffects (s s' : State) : list Effect :=
  take (length (trace s') - length (trace s)) (trace s').

Definition frame_of (e : Effect) : option OutFrame :=
  match e with SocketSend _ f => Some f | _ => None end.

Definition reconnect_of (e : Effect) : option Z :=
  match e with SetTimeout _ TReconnect delay => Some delay | _ => None end.

Definition play_of (e : Effect) : option string :=
  match e with AudioPlay u => Some u | _ => None end.

(** Frames sent between two states; delays of the reconnects scheduled so
    far and sources handed to the audio element so far, in the order of the
    calls. *)
Definition framesSent (s s' : State) : list OutFrame :=
  omap frame_of (newEffects s s').
Definition reconnects (l : list Effect) : list Z := omap reconnect_of l.
Definition scheduled (s : State) : list Z := rev (reconnects (trace s)).
Definition plays (l : list Effect) : list string := omap play_of l.
Definition played (s : State) : list string := rev (plays (trace s)).

(** The three preconditions of a parameter update, as the specification
    words them: connected, a model selected, a history id set. *)
Definition paramsReady (s : State) : bool :=
  bool_decide (is_Some (openSocket s))
  && negb (String.eqb (selectedModel s) "")
  && negb (String.eqb (historyId s) "").

(** The heartbeat is stopped: no handle is kept and no heartbeat timer is
    pending. *)
Definition heartbeatStopped (s : State) : Prop :=
  heartbeatInterval s = None /\
  Forall (fun t => timer_kind t <> THeartbeat) (timers s).

(** The segments that an event puts on the audio queue, read off the event:
    a [tts_sentence_complete] or [llm_response] frame that carries an audio
    reference, delivered on a socket that still receives. *)
Definition receives (i : nat) (s : State) : bool :=
  match sockets s !! i with
  | Some w => receiving (readyState w)
  | None => false
  end.

Definition segmentsOf (s : State) (data : Data) : list AudioSegment :=
  match data with
  | Decoded (MTTSSentenceComplete (Some t) audio_url) =>
      if truthy audio_url
      then [mkSegment (fullUrl s (js_str audio_url)) t] else []
  | Decoded (MLLMResponse audio_url) =>
      if truthy audio_url
      then [mkSegment (fullUrl s (js_str audio_url)) "语音回复"] else []
  | _ => []
  end.

Definition arrival (s : State) (ev : Event) : list AudioSegment :=
  match ev with
  | EvMessage i data => if receives i s then segmentsOf s data else []
  | _ => []
  end.

Fixpoint arrivals (s : State) (evs : list Event) : list AudioSegment :=
  match evs with
  | [] => []
  | ev :: evs' => arrival s ev ++ arrivals (step s ev) evs'
  end.

(** [1000 * (a+1); ...; 1000 * (a+n)]: the delays of [n] attempts after
    attempt [a]. *)
Fixpoint backoff (a : Z) (n : nat) : list Z :=
  match n with
  | O => []
  | S n' => reconnectDelay * (a + 1) :: backoff (a + 1) n'
  end.

(** No event of the list is the opening of a socket. *)
Definition is_open_event (ev : Event) : bool :=
  match ev with EvOpen _ => true | _ => false end.

(** The two enqueue paths with the guards exchanged. *)
Definition handleTTSSentenceComplete_alt (text audio_url : field) (s : State)
    : Completion :=
  if truthy audio_url then
    match text with
    | None =>
        Throw "TypeError: Cannot read properties of undefined (reading 'substring')" s
    | Some t =>
        let s := addToLog ("收到TTS音频: " +:+ String.substring 0 20 t +:+ "...") s in
        let s :=
          set_audioQueue
            (audioQueue s ++ [mkSegment (fullUrl s (js_str audio_url)) t]) s in
        Normal (match currentAudio s with
                | None => playNextAudio s
                | Some _ => s
                end)
    end
  else Normal s.

Definition playAudioResponse_alt (audio_url : string) (s : State) : State :=
  let s :=
    set_audioQueue (audioQueue s ++ [mkSegment (fullUrl s audio_url) "语音回复"]) s in
  if isPlaying s then s else playNextAudio s.

(** What one event may do to the reconnect bookkeeping: nothing, or count
    one more attempt and schedule it. *)
Definition Retry (s s' : State) : Prop :=
  (reconnectCount s' = reconnectCount s
   /\ reconnects (trace s') = reconnects (trace s))
  \/ (reconnectCount s < maxReconnectAttempts
      /\ reconnectCount s' = reconnectCount s + 1
      /\ reconnects (trace s')
         = reconnectDelay * (reconnectCount s + 1) :: reconnects (trace s)).

Definition no_open (evs : list Event) : bool :=
  forallb (fun ev => negb (is_open_event ev)) evs.

(** The bookkeeping of the heartbeat is sound: timer ids are never 0, and
    every pending heartbeat timer is the one [heartbeatInterval] holds. *)
Definition HB (s : State) : Prop :=
  nextTimer s <> 0%nat
  /\ heartbeatInterval s <> Some 0%nat
  /\ Forall (fun t => timer_kind t = THeartbeat ->
                      heartbeatInterval s = Some (timer_id t)) (timers s).

(** [true] for a value, [false] for null. *)
Definition marker {A : Type} (o : option A) : bool :=
  match o with Some _ => true | None => false end.

(** [isPlaying] and [currentAudio] agree. *)
Definition Synced (s : State) : Prop :=
  isPlaying s = true <-> currentAudio s <> None.

(** What playback depends on: the queue, the two markers, whether the ref
    [audioPlayer] is bound, the phase, and the sources played so far. *)
Definition audioView (s : State) :=
  (audioQueue s, currentAudio s, isPlaying s, marker (audioPlayer s),
   phase s, plays (trace s)).

(** The events whose handlers touch playback or the life of the component;
    every other event leaves [audioView] as it is. *)
Definition playback_event (ev : Event) : bool :=
  match ev with
  | EvMounted | EvUnmounted | EvMessage _ _
  | EvAudioEnded | EvAudioError | EvPlayRejected _ => true
  | _ => false
  end.

(** The ref [audioPlayer] is bound exactly while the component is mounted. *)
Definition Bound (s : State) : Prop :=
  marker (audioPlayer s) = match phase s with Mounted => true | _ => false end.

(** Before the component is mounted nothing is connected or pending. *)
Definition Idle (s : State) : Prop :=
  phase s = Created -> sockets s = [] /\ timers s = [].

(** The sources played are those of the segments in [l]; once the component
    is unmounted, the first of them. *)
Definition PlayedOk (s : State) (l : list AudioSegment) : Prop :=
  match phase s with
  | Unmounted => played s `prefix_of` map url l
  | _ => played s = map url l
  end.

(** The playback invariant, for the segments [arr] that arrived so far:
    some of them are finished, the others are the queue, in this order; the
    current segment is the head of the queue; and the audio element was
    given the finished ones and the current one, in this order. *)
Definition AudioInv (arr : list AudioSegment) (s : State) : Prop :=
  exists finished,
    arr = finished ++ audioQueue s
    /\ currentAudio s = head (audioQueue s)
    /\ isPlaying s = marker (currentAudio s)
    /\ Bound s
    /\ (phase s = Created -> arr = [])
    /\ PlayedOk s (finished ++ option_list (currentAudio s)).

(** What the end of the current segment does to a state [s]: the queue
    loses its head; the markers are cleared in a state [mid] from which
    [playNextAudio] runs at once, so that the new head, if there is one, is
    current and handed to the audio element with the queue as [mid] has
    it. *)
Definition Advanced (s s' : State) : Prop :=
  S (length (audioQueue s')) = length (audioQueue s)
  /\ audioQueue s' = tail (audioQueue s)
  /\ currentAudio s' = head (audioQueue s')
  /\ isPlaying s' = marker (head (audioQueue s'))
  /\ played s'
     = played s ++ match phase s with
                   | Mounted => map url (option_list (head (audioQueue s')))
                   | _ => []
                   end
  /\ exists mid,
       currentAudio mid = None /\ isPlaying mid = false
       /\ audioQueue mid = tail (audioQueue s)
       /\ s' = playNextAudio mid.

(** A [tts_sentence_complete] frame on socket 0, and the connected client
    after two of them. *)
Definition tts (audio_url : string) : Event :=
  EvMessage 0 (Decoded (MTTSSentenceComplete (Some "hi") (Some audio_url))).
Definition twoQueued : list Event :=
  [EvMounted; EvClickConnect; EvOpen 0; tts "/u1"; tts "/u2"].

(** Three abnormal closes in a row, each followed by its reconnect, and a
    fourth close. *)
Definition threeFailures : list Event :=
  [EvClose 0 1006 ""; EvTimer 3; EvTimer 4;
   EvClose 1 1006 ""; EvTimer 6; EvTimer 7;
   EvClose 2 1006 ""; EvTimer 9; EvTimer 10;
   EvClose 3 1006 ""].

(** Sample states: connected to socket 0, and the two stream chunks. *)
Definition connected : State := run start [EvMounted; EvClickConnect; EvOpen 0].
Definition chunk (content : string) : Event :=
  EvMessage 0 (Decoded (MLLMStreamChunk (Some content))).
Definition building (t : string) : ConversationEntry :=
  mkEntry (Some t) "assistant" "assistant-response-building".

(** ** Further observations *)

(** The frames of a trace with the sockets they were sent on, the latest
    first. *)
Definition send_of (e : Effect) : option (nat * OutFrame) :=
  match e with SocketSend i f => Some (i, f) | _ => None end.
Definition sends (l : list Effect) : list (nat * OutFrame) := omap send_of l.

(** The calls of a trace other than playing audio and writing to the
    console. *)
Definition outward_of (e : Effect) : option Effect :=
  match e with
  | AudioPlay _ | ConsoleError _ => None
  | _ => Some e
  end.
Definition outward (l : list Effect) : list Effect := omap outward_of l.

(** The state of the connection, the session and the pending work. *)
Definition connectionView (s : State) :=
  (socket s, sockets s, isConnected s, isVoiceChatting s, reconnectCount s,
   heartbeatInterval s, timers s, nextTimer s,
   (selectedModel s, historyId s, availableModels s, apiUrl s,
    connectionStatusText s, connectionStatusClass s, outward (trace s))).

(** The status line and its class, as [updateConnectionStatus] is called. *)
Definition statusPairs : list (string * string) :=
  [("未连接", "disconnected"); ("正在连接...", "processing");
   ("已连接", "connected"); ("连接失败", "disconnected")].
Definition StatusOk (s : State) : Prop :=
  In (connectionStatusText s, connectionStatusClass s) statusPairs.

(** How an entry of the conversation may change: sender and class stay,
    and only an entry that is being built changes at all. *)
Definition evolves (e e' : ConversationEntry) : Prop :=
  sender e' = sender e /\ className e' = className e
  /\ (is_building e = false -> e' = e).

(** A later conversation: the entries of the earlier one, in place and
    evolved, followed by new ones. *)
Definition extends (l l' : list ConversationEntry) : Prop :=
  exists l1 extra, l' = l1 ++ extra /\ Forall2 evolves l l1.

(** Timer ids are handed out once, from 1 on: the pending ones are distinct
    and below the next one, as are the connection timeouts the sockets
    remember. *)
Definition Fresh (s : State) : Prop :=
  nextTimer s <> 0%nat
  /\ NoDup (timer_id <$> timers s)
  /\ Forall (fun id => (id < nextTimer s)%nat) (timer_id <$> timers s)
  /\ Forall (fun id => (id < nextTimer s)%nat)
       (connectionTimeout <$> sockets s).

(** The bookkeeping of the progress interval, as [HB] for the heartbeat. *)
Definition PB (s : State) : Prop :=
  progressInterval s <> Some 0%nat
  /\ Forall (fun t => timer_kind t = TProgress ->
                      progressInterval s = Some (timer_id t)) (timers s).

Definition TimersOk (s : State) : Prop := Fresh s /\ PB s.

Definition is_heartbeat (t : Timer) : bool :=
  match timer_kind t with THeartbeat => true | _ => false end.
Definition is_progress (t : Timer) : bool :=
  match timer_kind t with TProgress => true | _ => false end.

(** While a model list is held, the model selected is none or one of the
    list. *)
Definition ModelOk (s : State) : Prop :=
  match availableModels s with
  | Some models => selectedModel s = "" \/ In (selectedModel s) models
  | None => True
  end.

(** What [fetchAvailableModels] logs when the answer has no model list. *)
Definition noModelList : string :=
  "获取模型列表失败: "
  +:+ "TypeError: Cannot read properties of undefined (reading '0')".

(** The number of requests for the model list in a trace. *)
Definition modelRequests (l : list Effect) : nat :=
  length (List.filter is_fetch_models l).

(** An event that ends the segment that is playing: [ended] or [error] of
    the audio element, or the rejection of [play()], delivered while
    [isPlaying] is set. *)
Definition ends_segment (s : State) (ev : Event) : bool :=
  isPlaying s
  && match ev with
     | EvAudioEnded | EvAudioError =>
         match audioPlayer s with
         | Some a => negb (bool_decide (src a = None))
         | None => false
         end
     | EvPlayRejected _ => has_effect is_play s
     | _ => false
     end.

(** The number of such events in a run from [s]. *)
Fixpoint ended (s : State) (evs : list Event) : nat :=
  match evs with
  | [] => 0%nat
  | ev :: evs' =>
      ((if ends_segment s ev then 1 else 0) + ended (step s ev) evs')%nat
  end.


(** The connected client with three segments queued, the first playing. *)
Definition threeQueued : State :=
  run connected [tts "/u1"; tts "/u2"; tts "/u3"].
Definition segment (n : string) : AudioSegment :=
  mkSegment ("http://localhost:8000/u" +:+ n) "hi".

(** Three clicks on connect before the first socket opens; the second
    socket opens between the ends of the two waits, and the component is
    unmounted. *)
Definition overlappingConnects : list Event :=
  [EvMounted; EvClickConnect; EvClickConnect; EvClickConnect;
   EvTimer 2; EvOpen 1; EvTimer 3; EvClose 0 1006 ""; EvUnmounted].

(** What [appendToLastMessage] does to the entry it finds. *)
Definition appended (content : field) (e : ConversationEntry)
    : ConversationEntry :=
  mkEntry (js_plus (entry_text e) content) (sender e) (className e).

(** A platform whose WebSocket constructor rejects every URL. *)
Definition rejects_all (p : Platform) : Prop :=
  forall u, ws_url_error p u <> None.
Definition offline : Platform :=
  mkPlatform "http:" "localhost" (fun _ => Some "SyntaxError") [].

(** No socket was ever created, none is current, the client does not count
    as connected and nothing was sent. *)
Definition Offline (s : State) : Prop :=
  sockets s = [] /\ socket s = None /\ isConnected s = false
  /\ sends (trace s) = [].

(** The class of the entry that is being built is not on the page outside
    the component. *)
Definition no_foreign_building (p : Platform) : bool :=
  negb (existsb (String.eqb "assistant-response-building") (document_other p)).

(** * Properties *)

(** ** Basic facts *)

Lemma set_sockets_same (s : State) : set_sockets (sockets s) s = s.
Proof. destruct s; reflexivity. Qed.

Lemma newEffects_app (s s' : State) (l : list Effect) :
  trace s' = (l ++ trace s)%list -> newEffects s s' = l.
Proof.
  intros E. unfold newEffects. rewrite E, length_app.
  replace (length l + length (trace s) - length (trace s))%nat
    with (length l) by lia.
  apply take_app_length.
Qed.

Lemma newEffects_same (s s' : State) :
  trace s' = trace s -> newEffects s s' = [].
Proof. intros E. apply (newEffects_app s s' []). exact E. Qed.

(** ** Parameter updates *)

(** C5: [updateParams] sends one [set_params] frame (with the selected model
    and the history id) exactly when the socket is open, a model is selected
    and a history id is set; otherwise it sends nothing and the state changes
    by one log line only. *)
Theorem updateParams_sends_iff_ready (s : State) :
  framesSent s (updateParams s)
  = (if paramsReady s then [SetParams (selectedModel s) (historyId s)] else [])
  /\ (if paramsReady s then True
      else exists diagnostic, updateParams s = addToLog diagnostic s).
Proof.
  unfold paramsReady, updateParams, framesSent.
  destruct (openSocket s) as [i|] eqn:Ho; cbn [bool_decide andb].
  - rewrite bool_decide_eq_true_2 by eauto. cbn [andb].
    destruct (String.eqb (selectedModel s) "") eqn:Em; cbn [negb andb].
    + split; [|eauto]. rewrite newEffects_same; reflexivity.
    + destruct (String.eqb (historyId s) "") eqn:Eh; cbn [negb andb].
      * split; [|eauto]. rewrite newEffects_same; reflexivity.
      * split; [|exact I].
        rewrite (newEffects_app _ _ [SocketSend i (SetParams (selectedModel s) (historyId s))]);
          reflexivity.
  - rewrite bool_decide_eq_false_2 by (intros [? ?]; discriminate).
    cbn [andb]. split; [|eauto]. rewrite newEffects_same; reflexivity.
Qed.

(** ** Frames without an audio reference *)

Lemma socketEvent_same (i : nat) (allowed : ReadyState -> bool)
    (handler : WebSocket -> State -> State) (s : State) :
  (forall w s', handler w s' = s') ->
  socketEvent i allowed (fun r => r) handler s = s.
Proof.
  intros H. unfold socketEvent.
  destruct (sockets s !! i) as [w|] eqn:E; [|reflexivity].
  destruct (allowed (readyState w)); [|reflexivity].
  rewrite H.
  replace (set_readyState (readyState w) w) with w by (destruct w; reflexivity).
  rewrite list_insert_id by exact E. apply set_sockets_same.
Qed.

(** C9: a [tts_sentence_complete] frame whose [audio_url] is absent or empty
    leaves the whole state as it was, both in the handler and as an event of
    the loop: nothing is queued, nothing is logged. *)
Theorem tts_without_audio_is_dropped (s : State) (i : nat) (text : field) :
  handleServerMessage (Decoded (MTTSSentenceComplete text None)) s = s
  /\ handleServerMessage (Decoded (MTTSSentenceComplete text (Some ""))) s = s
  /\ step s (EvMessage i (Decoded (MTTSSentenceComplete text None))) = s
  /\ step s (EvMessage i (Decoded (MTTSSentenceComplete text (Some "")))) = s.
Proof.
  repeat split; try reflexivity;
    cbn [step]; apply socketEvent_same; reflexivity.
Qed.

(** ** Runs *)

Lemma run_snoc (s : State) (evs : list Event) (ev : Event) :
  run s (evs ++ [ev]) = step (run s evs) ev.
Proof. unfold run. rewrite fold_left_app. reflexivity. Qed.

Lemma run_app (s : State) (evs1 evs2 : list Event) :
  run s (evs1 ++ evs2) = run (run s evs1) evs2.
Proof. unfold run. apply fold_left_app. Qed.

(** A property that holds when [setup()] returns and that every event
    preserves holds after every run. *)
Lemma run_invariant (P : State -> Prop) :
  (forall p c, P (init p c)) ->
  (forall s ev, P s -> P (step s ev)) ->
  forall p c evs, P (run (init p c) evs).
Proof.
  intros Hinit Hstep p c evs.
  induction evs as [|ev evs IH] using rev_ind.
  - apply Hinit.
  - rewrite run_snoc. apply Hstep, IH.
Qed.

(** ** Reconnection *)

(** Splits the conditionals of a handler, innermost first, until both sides
    agree. *)
Ltac split_match :=
  match goal with
  | |- context [match ?x with _ => _ end] =>
      lazymatch x with
      | context [match _ with _ => _ end] => fail
      | _ => let E := fresh "E" in destruct x eqn:E
      end
  end.
Ltac frame :=
  repeat (reflexivity || split_match);
  try (cbn in *;
       repeat match goal with
              | H : ?x = _ |- context [?x] => rewrite H
              end;
       reflexivity).

(** Unfolds the handlers and splits their conditionals, trying [tac] on
    every branch. *)
Ltac unfold_handlers :=
  unfold ui, socketEvent, timerFired, audioEvent,
    mounted, unmounted, connectWebSocket, afterGrace, connectWebSocket_open,
    connectionTimedOut, disconnectWebSocket, onopen, handleDisconnect,
    handleConnectionError, startHeartbeat, heartbeatTick, stopHeartbeat,
    fetchAvailableModels, createNewHistory, historyCreated, modelsFetched,
    updateParams, startVoiceChat, stopVoiceChat, handleServerMessage,
    messageError, dispatch, handleTTSSentenceComplete, handleError,
    handleLLMResponse, handleLLMStreamChunk, handleRecognitionResult,
    playAudioResponse, playRejected, onAudioError, onAudioEnded,
    onAudioCanPlay, startProgressUpdate, progressTick, playNextAudio.
Ltac by_cases tac := repeat (tac || split_match).
Ltac step_cases ev tac :=
  destruct ev; cbn [step]; unfold_handlers;
  try match goal with data : Data |- _ => destruct data as [|[]] end;
  by_cases tac.

Lemma Retry_same (s s' : State) :
  reconnectCount s' = reconnectCount s ->
  reconnects (trace s') = reconnects (trace s) ->
  Retry s s'.
Proof. intros; left; split; assumption. Qed.

Lemma Retry_eq (s : State) : Retry s s.
Proof. apply Retry_same; reflexivity. Qed.

#[local] Hint Resolve Retry_eq : core.

(** [Retry] only looks at the counter and the reconnects of the trace. *)
Lemma Retry_from (s0 s s' : State) :
  reconnectCount s0 = reconnectCount s ->
  reconnects (trace s0) = reconnects (trace s) ->
  Retry s0 s' -> Retry s s'.
Proof. unfold Retry. intros -> ->. tauto. Qed.

Lemma handleConnectionError_Retry (error : string) (s : State) :
  Retry s (handleConnectionError error s).
Proof.
  unfold handleConnectionError; cbn zeta.
  destruct (_ <? _) eqn:E.
  - right. apply Z.ltb_lt in E. repeat split. exact E.
  - apply Retry_same; reflexivity.
Qed.

Lemma stopHeartbeat_count (s : State) :
  reconnectCount (stopHeartbeat s) = reconnectCount s
  /\ reconnects (trace (stopHeartbeat s)) = reconnects (trace s).
Proof. unfold stopHeartbeat. split; frame. Qed.

Lemma handleDisconnect_Retry (code : Z) (reason : string) (s : State) :
  Retry s (handleDisconnect code reason s).
Proof.
  destruct (stopHeartbeat_count s) as [Hc Ht].
  unfold handleDisconnect; cbn zeta.
  set (s1 := stopHeartbeat s) in *.
  destruct (negb _ && _) eqn:E.
  - right. apply andb_true_iff in E as [_ E]. apply Z.ltb_lt in E.
    change (reconnectCount s1 < maxReconnectAttempts) in E.
    rewrite Hc in E. split; [exact E|]. split.
    + change (reconnectCount s1 + 1 = reconnectCount s + 1).
      rewrite Hc. reflexivity.
    + change (reconnectDelay * (reconnectCount s1 + 1) :: reconnects (trace s1)
              = reconnectDelay * (reconnectCount s + 1) :: reconnects (trace s)).
      rewrite Hc, Ht. reflexivity.
  - apply Retry_same; [exact Hc | exact Ht].
Qed.

Lemma connectWebSocket_open_Retry (s : State) : Retry s (connectWebSocket_open s).
Proof.
  unfold connectWebSocket_open; cbn zeta.
  destruct (ws_url_error _ _) as [error|].
  - eapply Retry_from; [| |apply handleConnectionError_Retry]; reflexivity.
  - apply Retry_same; reflexivity.
Qed.

Lemma afterGrace_Retry (s : State) : Retry s (afterGrace s).
Proof.
  unfold afterGrace.
  eapply Retry_from; [| |apply connectWebSocket_open_Retry]; reflexivity.
Qed.

Lemma connectWebSocket_Retry (s : State) : Retry s (connectWebSocket s).
Proof.
  unfold connectWebSocket. destruct (socket s).
  - apply Retry_same; reflexivity.
  - apply connectWebSocket_open_Retry.
Qed.

Lemma connectionTimedOut_Retry (s : State) : Retry s (connectionTimedOut s).
Proof.
  unfold connectionTimedOut. destruct (socket s); [|auto].
  destruct (openSocket s); [auto|].
  eapply Retry_from; [| |apply handleConnectionError_Retry]; reflexivity.
Qed.

Lemma timerFired_Retry (id : nat) (s : State) : Retry s (timerFired id s).
Proof.
  unfold timerFired. destruct (List.find _ _) as [t|]; [|auto].
  destruct (timer_kind t).
  - eapply Retry_from; [| |apply afterGrace_Retry]; reflexivity.
  - eapply Retry_from; [| |apply connectionTimedOut_Retry]; reflexivity.
  - eapply Retry_from; [| |apply connectWebSocket_Retry]; reflexivity.
  - apply Retry_same; unfold heartbeatTick; destruct (openSocket s);
      try reflexivity; apply stopHeartbeat_count.
  - apply Retry_same; unfold progressTick; frame.
Qed.

Lemma playNextAudio_count (s : State) :
  reconnectCount (playNextAudio s) = reconnectCount s
  /\ reconnects (trace (playNextAudio s)) = reconnects (trace s).
Proof. unfold playNextAudio. split; frame. Qed.

Lemma handleServerMessage_count (data : Data) (s : State) :
  reconnectCount (handleServerMessage data s) = reconnectCount s
  /\ reconnects (trace (handleServerMessage data s)) = reconnects (trace s).
Proof.
  unfold handleServerMessage, dispatch, handleTTSSentenceComplete,
    handleLLMResponse, handleLLMStreamChunk, playAudioResponse, playNextAudio.
  split; destruct data as [|[]]; frame.
Qed.

Lemma socketEvent_Retry (i : nat) (allowed : ReadyState -> bool)
    (r : ReadyState -> ReadyState) (handler : WebSocket -> State -> State)
    (s : State) :
  (forall w s', Retry s' (handler w s')) ->
  Retry s (socketEvent i allowed r handler s).
Proof.
  intros H. unfold socketEvent. destruct (sockets s !! i) as [w|]; [|auto].
  destruct (allowed _); [|auto].
  eapply Retry_from; [| |apply H]; reflexivity.
Qed.

Lemma ui_Retry (enabled : bool) (handler : State -> State) (s : State) :
  (forall s', Retry s' (handler s')) -> Retry s (ui enabled handler s).
Proof. intros H. unfold ui. destruct (phase s), enabled; auto. Qed.

Lemma audioEvent_Retry (handler : State -> State) (s : State) :
  (forall s', Retry s' (handler s')) -> Retry s (audioEvent handler s).
Proof. intros H. unfold audioEvent. frame; auto. Qed.

Lemma updateParams_count (s : State) :
  reconnectCount (updateParams s) = reconnectCount s
  /\ reconnects (trace (updateParams s)) = reconnects (trace s).
Proof. unfold updateParams. split; frame. Qed.

Lemma onAudioError_count (message : field) (s : State) :
  reconnectCount (onAudioError message s) = reconnectCount s
  /\ reconnects (trace (onAudioError message s)) = reconnects (trace s).
Proof. unfold onAudioError, playNextAudio. split; frame. Qed.

(** Every event but the opening of a socket leaves the reconnect bookkeeping
    alone or schedules one more attempt. *)
Lemma step_Retry (s : State) (ev : Event) :
  is_open_event ev = false -> Retry s (step s ev).
Proof.
  intros Hev. destruct ev; try discriminate Hev; cbn [step].
  - destruct (phase s); auto. apply Retry_same; reflexivity.
  - destruct (phase s); auto.
    apply Retry_same; unfold unmounted, stopHeartbeat; frame.
  - apply ui_Retry; intros; apply Retry_same; reflexivity.
  - apply ui_Retry, connectWebSocket_Retry.
  - apply ui_Retry; intros; apply Retry_same; unfold disconnectWebSocket; frame.
  - apply ui_Retry; intros s'.
    eapply Retry_from; [| |apply Retry_same; apply updateParams_count];
      reflexivity.
  - apply ui_Retry; intros; apply Retry_same; reflexivity.
  - apply ui_Retry; intros; apply Retry_same; apply updateParams_count.
  - apply ui_Retry; intros; apply Retry_same; reflexivity.
  - apply ui_Retry; intros; apply Retry_same; unfold startVoiceChat; frame.
  - apply ui_Retry; intros; apply Retry_same; unfold stopVoiceChat; frame.
  - apply socketEvent_Retry; intros; apply handleDisconnect_Retry.
  - apply socketEvent_Retry; intros; apply handleConnectionError_Retry.
  - apply socketEvent_Retry; intros; apply Retry_same;
      apply handleServerMessage_count.
  - apply timerFired_Retry.
  - apply Retry_same; reflexivity.
  - apply Retry_same; frame.
  - apply audioEvent_Retry; intros; apply Retry_same;
      unfold onAudioEnded, playNextAudio; frame.
  - apply audioEvent_Retry; intros; apply Retry_same; apply onAudioError_count.
  - apply audioEvent_Retry; intros; apply Retry_same;
      unfold onAudioCanPlay, startProgressUpdate; frame.
  - destruct (has_effect _ _); auto. unfold playRejected.
    eapply Retry_from; [| |apply Retry_same; apply onAudioError_count];
      reflexivity.
  - destruct (has_effect _ _); auto.
    apply Retry_same; unfold modelsFetched; frame.
  - destruct (has_effect _ _); auto.
    apply Retry_same; unfold historyCreated; destruct r; try reflexivity.
    + eapply eq_trans; [apply updateParams_count|reflexivity].
    + eapply eq_trans; [apply updateParams_count|reflexivity].
Qed.

Lemma open_resets_count (s : State) (i : nat) :
  reconnectCount (step s (EvOpen i)) = 0 \/ step s (EvOpen i) = s.
Proof.
  cbn [step]. unfold socketEvent.
  destruct (sockets s !! i) as [w|]; [|right; reflexivity].
  destruct (is_connecting _); [|right; reflexivity].
  left. unfold onopen, startHeartbeat, stopHeartbeat. frame.
Qed.

Lemma step_count_bounds (s : State) (ev : Event) :
  0 <= reconnectCount s <= maxReconnectAttempts ->
  0 <= reconnectCount (step s ev) <= maxReconnectAttempts.
Proof.
  intros H. destruct (is_open_event ev) eqn:E.
  - destruct ev; try discriminate E.
    destruct (open_resets_count s i) as [-> | ->]; [|exact H].
    unfold maxReconnectAttempts. lia.
  - destruct (step_Retry s ev E) as [[-> _] | (? & -> & _)];
      unfold maxReconnectAttempts in *; lia.
Qed.

Lemma run_count_bounds (p : Platform) (c : Clock) (evs : list Event) :
  0 <= reconnectCount (run (init p c) evs) <= maxReconnectAttempts.
Proof.
  apply (run_invariant (fun s => 0 <= reconnectCount s <= maxReconnectAttempts)).
  - intros; cbn; unfold maxReconnectAttempts; lia.
  - apply step_count_bounds.
Qed.

Lemma backoff_snoc (a : Z) (n : nat) :
  backoff a (S n) = (backoff a n ++ [reconnectDelay * (a + Z.of_nat n + 1)])%list.
Proof.
  revert a. induction n as [|n IH]; intros a.
  - cbn [backoff app]. do 2 f_equal. lia.
  - change (backoff a (S (S n)))
      with (reconnectDelay * (a + 1) :: backoff (a + 1) (S n)).
    rewrite IH. cbn [backoff app]. do 4 f_equal. lia.
Qed.

(** Without an open in between, the reconnects scheduled during a run are
    the next attempts, each at its linear delay. *)
Lemma run_Retry (s : State) (evs : list Event) :
  no_open evs = true ->
  exists n : nat,
    scheduled (run s evs) = (scheduled s ++ backoff (reconnectCount s) n)%list
    /\ reconnectCount (run s evs) = reconnectCount s + Z.of_nat n.
Proof.
  induction evs as [|ev evs IH] using rev_ind; intros Hno.
  - exists O. cbn. rewrite app_nil_r. split; [reflexivity|lia].
  - unfold no_open in Hno. rewrite forallb_app in Hno.
    apply andb_true_iff in Hno as [Hevs Hev]. cbn in Hev.
    rewrite andb_true_r in Hev. apply negb_true_iff in Hev.
    destruct (IH Hevs) as (n & Hs & Hc). rewrite run_snoc.
    destruct (step_Retry (run s evs) ev Hev) as [[Ec Et] | (_ & Ec & Et)].
    + exists n. unfold scheduled in *. rewrite Et, Ec. split; assumption.
    + exists (S n). unfold scheduled in *. rewrite Et, Ec, backoff_snoc.
      cbn [rev]. rewrite Hs, Hc, <- app_assoc. split; [reflexivity|lia].
Qed.

(** C3: after any run, the counter lies between 0 and 3; it is 0 when
    [setup()] returns and after every open that takes effect; and while no
    socket opens, the reconnects scheduled are exactly the attempts that
    follow the current count, attempt N with a delay of 1000 ms times N. *)
Theorem reconnects_bounded_and_linear
    (p : Platform) (c : Clock) (evs1 evs2 : list Event) :
  no_open evs2 = true ->
  let s := run (init p c) evs1 in
  let s' := run s evs2 in
  exists n : nat,
    scheduled s' = (scheduled s ++ backoff (reconnectCount s) n)%list
    /\ reconnectCount s' = reconnectCount s + Z.of_nat n
    /\ 0 <= reconnectCount s
    /\ reconnectCount s' <= maxReconnectAttempts
    /\ reconnectCount (init p c) = 0
    /\ forall i, reconnectCount (step s' (EvOpen i)) = 0
                 \/ step s' (EvOpen i) = s'.
Proof.
  intros Hno s s'.
  destruct (run_Retry s evs2 Hno) as (n & Hs & Hc).
  exists n. split; [exact Hs|]. split; [exact Hc|].
  split; [apply run_count_bounds|].
  split; [unfold s', s; rewrite <- run_app; apply run_count_bounds|].
  split; [reflexivity|]. intros i. apply open_resets_count.
Qed.

Lemma reconnects_bounded_and_linear_witness :
  no_open threeFailures = true
  /\ exists n : nat,
       scheduled (run connected threeFailures)
       = (scheduled connected ++ backoff (reconnectCount connected) n)%list
       /\ reconnectCount (run connected threeFailures)
          = reconnectCount connected + Z.of_nat n
       /\ 0 <= reconnectCount connected
       /\ reconnectCount (run connected threeFailures) <= maxReconnectAttempts
       /\ reconnectCount start = 0
       /\ forall i,
            reconnectCount (step (run connected threeFailures) (EvOpen i)) = 0
            \/ step (run connected threeFailures) (EvOpen i)
               = run connected threeFailures.
Proof.
  split; [reflexivity|].
  apply (reconnects_bounded_and_linear localhost noon
           [EvMounted; EvClickConnect; EvOpen 0] threeFailures).
  reflexivity.
Defined.

Example three_failures_schedule :
  scheduled (run connected threeFailures) = [1000; 2000; 3000]
  /\ reconnectCount (run connected threeFailures) = 3.
Proof. vm_compute. split; reflexivity. Qed.

(** ** The heartbeat *)

Lemma Forall_filter_timers (P : Timer -> Prop) (id : nat) (l : list Timer) :
  Forall P l -> Forall P (filter (fun t => timer_id t <> id) l).
Proof.
  rewrite !Forall_forall. intros H t Hin.
  apply list_elem_of_filter in Hin as [_ Hin]. apply H, Hin.
Qed.

Lemma HB_setTimeout (k : TimerKind) (delay : Z) (s : State) :
  k <> THeartbeat -> HB s -> HB (setTimeout k delay s).
Proof.
  intros Hk (Hn & H0 & Ht). repeat split; [discriminate | exact H0 |].
  cbn. apply Forall_app. split; [exact Ht|].
  constructor; [|constructor]. cbn. intros E. contradiction.
Qed.

Lemma HB_setInterval (k : TimerKind) (delay : Z) (s : State) :
  k <> THeartbeat -> HB s -> HB (setInterval k delay s).
Proof.
  intros Hk (Hn & H0 & Ht). repeat split; [discriminate | exact H0 |].
  cbn. apply Forall_app. split; [exact Ht|].
  constructor; [|constructor]. cbn. intros E. contradiction.
Qed.

Lemma HB_clearTimer (id : nat) (s : State) : HB s -> HB (clearTimer id s).
Proof.
  intros (Hn & H0 & Ht). repeat split; [exact Hn | exact H0 |].
  cbn. apply Forall_filter_timers. exact Ht.
Qed.

Lemma HB_expire (id : nat) (s : State) : HB s -> HB (expire id s).
Proof.
  intros (Hn & H0 & Ht). repeat split; [exact Hn | exact H0 |].
  cbn. apply Forall_filter_timers. exact Ht.
Qed.

Lemma handle_truthy_Some (h : option nat) (id : nat) :
  handle_truthy h = Some id -> h = Some id /\ id <> 0%nat.
Proof.
  destruct h as [n|]; cbn; [|discriminate].
  destruct (Nat.eqb n 0) eqn:E; [discriminate|].
  intros [= <-]. apply Nat.eqb_neq in E. split; [reflexivity|exact E].
Qed.

Lemma handle_truthy_None (h : option nat) :
  handle_truthy h = None -> h = None \/ h = Some 0%nat.
Proof.
  destruct h as [n|]; cbn; [|left; reflexivity].
  destruct (Nat.eqb n 0) eqn:E; [|discriminate].
  apply Nat.eqb_eq in E. subst n. right; reflexivity.
Qed.

(** In a sound state [stopHeartbeat] leaves no heartbeat behind. *)
Lemma stopHeartbeat_stops (s : State) :
  HB s -> HB (stopHeartbeat s) /\ heartbeatStopped (stopHeartbeat s).
Proof.
  intros (Hn & H0 & Ht). unfold stopHeartbeat.
  destruct (handle_truthy (heartbeatInterval s)) as [id|] eqn:E.
  - apply handle_truthy_Some in E as [E Hid].
    assert (Hnone : Forall (fun t => timer_kind t <> THeartbeat)
                      (filter (fun t => timer_id t <> id) (timers s))).
    { apply Forall_forall. intros t Hin Hk.
      apply list_elem_of_filter in Hin as [Hne Hin].
      rewrite Forall_forall in Ht. specialize (Ht t Hin Hk).
      rewrite E in Ht. injection Ht as ->. apply Hne. reflexivity. }
    split; [|split; [reflexivity|exact Hnone]].
    repeat split; [exact Hn | discriminate |].
    cbn. eapply Forall_impl; [exact Hnone|]. cbn. intros t Hk Hk'.
    contradiction.
  - apply handle_truthy_None in E as [E|E]; [|contradiction].
    assert (Hnone : Forall (fun t => timer_kind t <> THeartbeat) (timers s)).
    { eapply Forall_impl; [exact Ht|]. cbn. intros t Hk Hk'.
      rewrite (Hk Hk') in E. discriminate E. }
    split; [|split; assumption].
    repeat split; assumption.
Qed.

Lemma HB_stopHeartbeat (s : State) : HB s -> HB (stopHeartbeat s).
Proof. intros H. apply stopHeartbeat_stops, H. Qed.

Lemma HB_startHeartbeat (s : State) : HB s -> HB (startHeartbeat s).
Proof.
  intros H. destruct (stopHeartbeat_stops s H) as [(Hn & H0 & Ht) [_ Hnone]].
  unfold startHeartbeat; cbn zeta. set (s1 := stopHeartbeat s) in *.
  repeat split.
  - discriminate.
  - cbn. intros [= E]. contradiction.
  - cbn. apply Forall_app. split.
    + eapply Forall_impl; [exact Hnone|]. cbn. intros t Hk Hk'. contradiction.
    + constructor; [|constructor]. reflexivity.
Qed.

(** An update that leaves timers and handles alone keeps the bookkeeping
    sound. *)
Lemma HB_frame (f : State -> State) :
  (forall s, timers (f s) = timers s
             /\ nextTimer (f s) = nextTimer s
             /\ heartbeatInterval (f s) = heartbeatInterval s) ->
  forall s, HB s -> HB (f s).
Proof.
  intros Hf s. destruct (Hf s) as (Et & En & Eh).
  unfold HB. rewrite Et, En, Eh. tauto.
Qed.

(** Peels a handler off the goal: a known step of the heartbeat
    bookkeeping, or an update that does not concern it. *)
Ltac hb_step :=
  lazymatch goal with
  | |- HB (setTimeout _ _ _) => apply HB_setTimeout; [discriminate|]
  | |- HB (setInterval _ _ _) => apply HB_setInterval; [discriminate|]
  | |- HB (clearTimer _ _) => apply HB_clearTimer
  | |- HB (expire _ _) => apply HB_expire
  | |- HB (stopHeartbeat _) => apply HB_stopHeartbeat
  | |- HB (startHeartbeat _) => apply HB_startHeartbeat
  | |- HB (?f ?s) =>
      apply (HB_frame f); [intros; repeat split; reflexivity|]
  end.
Ltac hb := repeat (assumption || hb_step || split_match).

Lemma HB_handleConnectionError (error : string) (s : State) :
  HB s -> HB (handleConnectionError error s).
Proof. intros H. unfold handleConnectionError; cbn zeta. hb. Qed.

Lemma HB_handleDisconnect (code : Z) (reason : string) (s : State) :
  HB s -> HB (handleDisconnect code reason s).
Proof. intros H. unfold handleDisconnect; cbn zeta. hb. Qed.

Lemma HB_onopen (w : WebSocket) (s : State) : HB s -> HB (onopen w s).
Proof.
  intros H. unfold onopen, fetchAvailableModels; cbn zeta. hb.
Qed.

Lemma HB_connectWebSocket_open (s : State) :
  HB s -> HB (connectWebSocket_open s).
Proof.
  intros H. unfold connectWebSocket_open; cbn zeta.
  destruct (ws_url_error _ _); [apply HB_handleConnectionError|]; hb.
Qed.

Lemma HB_connectWebSocket (s : State) : HB s -> HB (connectWebSocket s).
Proof.
  intros H. unfold connectWebSocket.
  destruct (socket s); [|apply HB_connectWebSocket_open]; hb.
Qed.

Lemma HB_timerFired (id : nat) (s : State) : HB s -> HB (timerFired id s).
Proof.
  intros H. unfold timerFired.
  destruct (List.find _ _) as [t|]; [|exact H]. destruct (timer_kind t).
  - unfold afterGrace. apply HB_connectWebSocket_open. hb.
  - unfold connectionTimedOut.
    destruct (socket _); [|hb]. destruct (openSocket _); [hb|].
    apply HB_handleConnectionError. hb.
  - apply HB_connectWebSocket. hb.
  - unfold heartbeatTick. hb.
  - unfold progressTick. hb.
Qed.

Lemma HB_playNextAudio (s : State) : HB s -> HB (playNextAudio s).
Proof. intros H. unfold playNextAudio. hb. Qed.

Lemma HB_handleServerMessage (data : Data) (s : State) :
  HB s -> HB (handleServerMessage data s).
Proof.
  intros H.
  unfold handleServerMessage, dispatch, handleTTSSentenceComplete,
    handleLLMResponse, handleLLMStreamChunk, playAudioResponse.
  destruct data as [|[]]; try exact H;
    repeat (assumption || apply HB_playNextAudio || split_match);
    first [exact H | apply HB_playNextAudio; exact H].
Qed.

Lemma HB_updateParams (s : State) : HB s -> HB (updateParams s).
Proof. intros H. unfold updateParams. hb. Qed.

Lemma HB_ui (enabled : bool) (handler : State -> State) (s : State) :
  (forall s', HB s' -> HB (handler s')) -> HB s -> HB (ui enabled handler s).
Proof. intros Hh H. unfold ui. destruct (phase s), enabled; auto. Qed.

Lemma HB_socketEvent (i : nat) (allowed : ReadyState -> bool)
    (r : ReadyState -> ReadyState) (handler : WebSocket -> State -> State)
    (s : State) :
  (forall w s', HB s' -> HB (handler w s')) ->
  HB s -> HB (socketEvent i allowed r handler s).
Proof.
  intros Hh H. unfold socketEvent.
  destruct (sockets s !! i) as [w|]; [|exact H].
  destruct (allowed _); [|exact H]. apply Hh. hb.
Qed.

Lemma HB_audioEvent (handler : State -> State) (s : State) :
  (forall s', HB s' -> HB (handler s')) -> HB s -> HB (audioEvent handler s).
Proof.
  intros Hh H. unfold audioEvent. destruct (audioPlayer s); [|exact H].
  destruct (bool_decide _); auto.
Qed.

Lemma HB_onAudioError (message : field) (s : State) :
  HB s -> HB (onAudioError message s).
Proof. intros H. unfold onAudioError; cbn zeta. apply HB_playNextAudio. hb. Qed.

Lemma HB_step (s : State) (ev : Event) : HB s -> HB (step s ev).
Proof.
  intros H. destruct ev; cbn [step].
  - destruct (phase s); [unfold mounted; cbn zeta; hb | exact H | exact H].
  - destruct (phase s); [exact H | unfold unmounted; cbn zeta; hb | exact H].
  - apply HB_ui; [|exact H]. intros; hb.
  - apply HB_ui; [|exact H]. apply HB_connectWebSocket.
  - apply HB_ui; [|exact H]. intros; unfold disconnectWebSocket, socket_close; hb.
  - apply HB_ui; [|exact H]. intros; apply HB_updateParams; hb.
  - apply HB_ui; [|exact H]. intros; hb.
  - apply HB_ui; [|exact H]. apply HB_updateParams.
  - apply HB_ui; [|exact H]. intros; unfold createNewHistory; hb.
  - apply HB_ui; [|exact H]. intros; unfold startVoiceChat; cbn zeta; hb.
  - apply HB_ui; [|exact H]. intros; unfold stopVoiceChat; cbn zeta; hb.
  - apply HB_socketEvent; [|exact H]. apply HB_onopen.
  - apply HB_socketEvent; [|exact H]. intros; apply HB_handleDisconnect; hb.
  - apply HB_socketEvent; [|exact H].
    intros; apply HB_handleConnectionError; hb.
  - apply HB_socketEvent; [|exact H]. intros; apply HB_handleServerMessage; hb.
  - apply HB_timerFired, H.
  - hb.
  - destruct (audioPlayer s); hb.
  - apply HB_audioEvent; [|exact H]. intros; unfold onAudioEnded; cbn zeta.
    apply HB_playNextAudio. hb.
  - apply HB_audioEvent; [|exact H]. apply HB_onAudioError.
  - apply HB_audioEvent; [|exact H].
    intros; unfold onAudioCanPlay, startProgressUpdate; cbn zeta. hb.
  - destruct (has_effect _ _); [|exact H]. unfold playRejected.
    apply HB_onAudioError. hb.
  - destruct (has_effect _ _); [|exact H]. unfold modelsFetched; cbn zeta.
    destruct r; hb.
  - destruct (has_effect _ _); [|exact H]. unfold historyCreated; cbn zeta.
    destruct r; try apply HB_updateParams; hb.
Qed.

Lemma HB_run (p : Platform) (c : Clock) (evs : list Event) :
  HB (run (init p c) evs).
Proof.
  apply (run_invariant HB); [|apply HB_step].
  intros. repeat split; [discriminate | discriminate | constructor].
Qed.

(** C10: after any run, a close event of any code (1000 included) leaves no
    heartbeat and clears [isConnected], [isVoiceChatting] and [isSpeaking];
    this holds for the handler and for the close event of the loop, which
    either is not delivered (the socket is unknown or closed already) or
    runs the handler. *)
Theorem close_stops_heartbeat_and_voice_chat
    (p : Platform) (c : Clock) (evs : list Event)
    (i : nat) (code : Z) (reason : string) :
  let s := run (init p c) evs in
  let closed s' :=
    heartbeatStopped s' /\ isConnected s' = false
    /\ isVoiceChatting s' = false /\ isSpeaking s' = false in
  closed (handleDisconnect code reason s)
  /\ (step s (EvClose i code reason) = s
      \/ closed (step s (EvClose i code reason))).
Proof.
  intros s closed.
  assert (Hclosed : forall s0, HB s0 -> closed (handleDisconnect code reason s0)).
  { intros s0 H0. destruct (stopHeartbeat_stops s0 H0) as [_ [Hh Ht]].
    unfold closed, handleDisconnect; cbn zeta.
    set (s1 := stopHeartbeat s0) in *. clearbody s1.
    destruct (negb _ && _).
    - repeat split; try reflexivity; [exact Hh|].
      cbn. apply Forall_app. split; [exact Ht|].
      constructor; [discriminate|constructor].
    - repeat split; try reflexivity; assumption. }
  split; [apply Hclosed, HB_run|].
  cbn [step]. unfold socketEvent.
  destruct (sockets s !! i) as [w|]; [|left; reflexivity].
  destruct (not_closed _); [|left; reflexivity].
  right. apply Hclosed.
  apply (HB_frame (set_sockets _)); [intros; repeat split; reflexivity|].
  apply HB_run.
Qed.

(** ** Transport errors *)

(** C2, as the code has it: a transport error of a socket that is not closed
    runs [handleConnectionError], which logs the error, shows the status
    连接失败 with class disconnected, and schedules a reconnect (counter plus
    one, delay 1000 ms times the new counter, one more log line) exactly
    when the counter is below 3.  The heartbeat handle, the pending timers
    (so the heartbeat timer) and the flags [isConnected], [isVoiceChatting]
    and [isSpeaking] stay as they are. *)
Theorem transport_error_sets_status_and_retries (error : string) (s : State) :
  let s' := handleConnectionError error s in
  let retry := reconnectCount s <? maxReconnectAttempts in
  let line := fun message => "[" +:+ localeTime (clock s) +:+ "] " +:+ message in
  (forall i w,
     sockets s !! i = Some w ->
     not_closed (readyState w) = true ->
     step s (EvError i) = handleConnectionError "[object Event]" s)
  /\ logs s'
     = logs s
       ++ [line ("连接错误: " +:+ error)]
       ++ (if retry
           then [line ("将在 "
                       +:+ pretty (reconnectDelay * (reconnectCount s + 1) / 1000)
                       +:+ " 秒后尝试重连(" +:+ pretty (reconnectCount s + 1)
                       +:+ "/" +:+ pretty maxReconnectAttempts +:+ ")...")]
           else [])
  /\ connectionStatusText s' = "连接失败"
  /\ connectionStatusClass s' = "disconnected"
  /\ reconnectCount s' = (if retry then reconnectCount s + 1 else reconnectCount s)
  /\ reconnects (trace s')
     = (if retry then [reconnectDelay * (reconnectCount s + 1)] else [])
       ++ reconnects (trace s)
  /\ timers s'
     = timers s
       ++ (if retry
           then [mkTimer (nextTimer s) TReconnect
                   (reconnectDelay * (reconnectCount s + 1))]
           else [])
  /\ heartbeatInterval s' = heartbeatInterval s
  /\ isConnected s' = isConnected s
  /\ isVoiceChatting s' = isVoiceChatting s
  /\ isSpeaking s' = isSpeaking s.
Proof.
  cbn zeta. split.
  { intros i w Hw Hr. cbn [step]. unfold socketEvent. rewrite Hw, Hr.
    replace (set_readyState (readyState w) w) with w by (destruct w; reflexivity).
    rewrite list_insert_id by exact Hw. rewrite set_sockets_same. reflexivity. }
  unfold handleConnectionError; cbn zeta.
  change (reconnectCount (updateConnectionStatus "连接失败" "disconnected"
            (addToLog ("连接错误: " +:+ error) s)))
    with (reconnectCount s).
  destruct (reconnectCount s <? maxReconnectAttempts).
  - split; [cbn; rewrite <- ?app_assoc; reflexivity|].
    repeat split; reflexivity.
  - split; [cbn; rewrite ?app_nil_r; reflexivity|].
    repeat split; try reflexivity. cbn. rewrite app_nil_r. reflexivity.
Qed.

(** C2 as stated fails: on the connected client a transport error leaves
    the heartbeat running and [isConnected] set, where an abnormal close
    stops the one and clears the other. *)
Lemma transport_error_keeps_heartbeat :
  heartbeatInterval (step connected (EvError 0)) = Some 2%nat
  /\ timers (step connected (EvError 0))
     = [mkTimer 2 THeartbeat 10000; mkTimer 3 TReconnect 1000]
  /\ ~ heartbeatStopped (step connected (EvError 0))
  /\ isConnected (step connected (EvError 0)) = true
  /\ heartbeatInterval (step connected (EvClose 0 1006 "")) = None
  /\ timers (step connected (EvClose 0 1006 "")) = [mkTimer 3 TReconnect 1000]
  /\ isConnected (step connected (EvClose 0 1006 "")) = false.
Proof.
  repeat split; try (vm_compute; reflexivity).
  intros [H _]. vm_compute in H. discriminate H.
Qed.

(** ** Normal closure *)

(** A close event with code 1000 schedules nothing, whatever the counter. *)
Lemma normal_close_never_reconnects (reason : string) (s : State) :
  let s' := handleDisconnect 1000 reason s in
  reconnectCount s' = reconnectCount s
  /\ reconnects (trace s') = reconnects (trace s)
  /\ timers s' = timers (stopHeartbeat s).
Proof.
  destruct (stopHeartbeat_count s) as [Hc Ht].
  unfold handleDisconnect; cbn zeta. cbn [Z.eqb Pos.eqb negb andb].
  repeat split; assumption.
Qed.

(** [disconnectWebSocket] calls [close()] on the current socket, without a
    code, and schedules nothing itself. *)
Lemma disconnectWebSocket_closes (s : State) (i : nat) :
  socket s = Some i ->
  trace (disconnectWebSocket s) = SocketClose i :: trace s
  /\ timers (disconnectWebSocket s) = timers s
  /\ reconnectCount (disconnectWebSocket s) = reconnectCount s.
Proof. intros E. unfold disconnectWebSocket. rewrite E. repeat split. Qed.

(** C4, at the failing input: the user disconnects the connected client,
    which calls [close()] with no code; the close event that answers such a
    call carries code 1005, and the handler schedules a reconnect. *)
Theorem disconnect_then_close_1005_reconnects :
  let s := step connected EvClickDisconnect in
  let s' := step s (EvClose 0 1005 "") in
  trace s = SocketClose 0 :: trace connected
  /\ scheduled s = []
  /\ scheduled s' = [1000]
  /\ reconnectCount s' = 1
  /\ timers s' = [mkTimer 3 TReconnect 1000].
Proof. vm_compute. repeat split. Qed.

(** ** Streaming text *)

(** The template never renders [className], so the query of
    [handleLLMStreamChunk] finds nothing and every chunk adds an entry. *)
Lemma stream_chunk_adds_entry (content : field) (s : State) :
  querySelector_class "assistant-response-building" s = false ->
  conversationHistory (handleLLMStreamChunk content s)
  = update_first is_building
      (fun e => mkEntry (js_plus (entry_text e) content) (sender e) (className e))
      (conversationHistory s ++ [building ""]).
Proof. intros E. unfold handleLLMStreamChunk. rewrite E. reflexivity. Qed.

(** C7, at the failing input: the chunks "He" and "llo" arrive on the
    connected client with an empty conversation; two assistant entries are
    created, the first ends as "Hello", the second stays empty. *)
Theorem two_chunks_create_two_entries :
  conversationHistory connected = []
  /\ conversationHistory (run connected [chunk "He"])
     = [building "He"]
  /\ conversationHistory (run connected [chunk "He"; chunk "llo"])
     = [building "Hello"; building ""].
Proof. vm_compute. repeat split. Qed.

(** When the page outside the component has an element of that class, no
    entry is created and the text of both chunks is lost. *)
Example two_chunks_with_foreign_element :
  let page := mkPlatform "http:" "localhost" (fun _ => None)
                ["assistant-response-building"] in
  conversationHistory
    (run (init page noon)
       [EvMounted; EvClickConnect; EvOpen 0; chunk "He"; chunk "llo"])
  = [].
Proof. vm_compute. reflexivity. Qed.

(** ** Playback *)

(** *** Handlers that do not touch playback *)

Ltac view := intros; unfold audioView; frame.

Lemma stopHeartbeat_view (s : State) :
  audioView (stopHeartbeat s) = audioView s.
Proof. unfold stopHeartbeat. view. Qed.

Lemma handleConnectionError_view (error : string) (s : State) :
  audioView (handleConnectionError error s) = audioView s.
Proof. unfold handleConnectionError. view. Qed.

Lemma handleDisconnect_view (code : Z) (reason : string) (s : State) :
  audioView (handleDisconnect code reason s) = audioView s.
Proof. unfold handleDisconnect, stopHeartbeat. view. Qed.

Lemma onopen_view (w : WebSocket) (s : State) :
  audioView (onopen w s) = audioView s.
Proof. unfold onopen, startHeartbeat, stopHeartbeat. view. Qed.

Lemma connectWebSocket_open_view (s : State) :
  audioView (connectWebSocket_open s) = audioView s.
Proof. unfold connectWebSocket_open, handleConnectionError. view. Qed.

Lemma connectWebSocket_view (s : State) :
  audioView (connectWebSocket s) = audioView s.
Proof.
  unfold connectWebSocket. destruct (socket s).
  - view.
  - apply connectWebSocket_open_view.
Qed.

Lemma connectionTimedOut_view (s : State) :
  audioView (connectionTimedOut s) = audioView s.
Proof. unfold connectionTimedOut, handleConnectionError. view. Qed.

Lemma updateParams_view (s : State) : audioView (updateParams s) = audioView s.
Proof. unfold updateParams. view. Qed.

Lemma timerFired_view (id : nat) (s : State) :
  audioView (timerFired id s) = audioView s.
Proof.
  unfold timerFired. destruct (List.find _ _) as [t|]; [|reflexivity].
  destruct (timer_kind t).
  - unfold afterGrace. rewrite connectWebSocket_open_view. reflexivity.
  - rewrite connectionTimedOut_view. reflexivity.
  - rewrite connectWebSocket_view. reflexivity.
  - unfold heartbeatTick. destruct (openSocket s); [reflexivity|].
    apply stopHeartbeat_view.
  - unfold progressTick. view.
Qed.

Lemma ui_view (enabled : bool) (handler : State -> State) (s : State) :
  (forall s', audioView (handler s') = audioView s') ->
  audioView (ui enabled handler s) = audioView s.
Proof. intros H. unfold ui. destruct (phase s), enabled; auto. Qed.

Lemma socketEvent_view (i : nat) (allowed : ReadyState -> bool)
    (r : ReadyState -> ReadyState) (handler : WebSocket -> State -> State)
    (s : State) :
  (forall w s', audioView (handler w s') = audioView s') ->
  audioView (socketEvent i allowed r handler s) = audioView s.
Proof.
  intros H. unfold socketEvent. destruct (sockets s !! i) as [w|]; [|reflexivity].
  destruct (allowed _); [|reflexivity]. rewrite H. reflexivity.
Qed.

Lemma step_view (s : State) (ev : Event) :
  playback_event ev = false -> audioView (step s ev) = audioView s.
Proof.
  intros Hev. destruct ev; try discriminate Hev; cbn [step].
  - apply ui_view. reflexivity.
  - apply ui_view, connectWebSocket_view.
  - apply ui_view. intros; unfold disconnectWebSocket; view.
  - apply ui_view. intros; rewrite updateParams_view; reflexivity.
  - apply ui_view. reflexivity.
  - apply ui_view, updateParams_view.
  - apply ui_view. reflexivity.
  - apply ui_view. intros; unfold startVoiceChat; view.
  - apply ui_view. intros; unfold stopVoiceChat; view.
  - apply socketEvent_view, onopen_view.
  - apply socketEvent_view. intros; apply handleDisconnect_view.
  - apply socketEvent_view. intros; apply handleConnectionError_view.
  - apply timerFired_view.
  - reflexivity.
  - view.
  - unfold audioEvent, onAudioCanPlay, startProgressUpdate. view.
  - destruct (has_effect _ _); [|reflexivity]. unfold modelsFetched. view.
  - destruct (has_effect _ _); [|reflexivity]. unfold historyCreated.
    destruct r; try reflexivity. rewrite updateParams_view. reflexivity.
Qed.

(** *** The playback handlers *)

Lemma playNextAudio_frame (s : State) :
  audioQueue (playNextAudio s) = audioQueue s
  /\ phase (playNextAudio s) = phase s
  /\ marker (audioPlayer (playNextAudio s)) = marker (audioPlayer s)
  /\ sockets (playNextAudio s) = sockets s
  /\ timers (playNextAudio s) = timers s.
Proof.
  unfold playNextAudio.
  repeat match goal with |- _ /\ _ => split end; frame.
Qed.

(** Starting from an idle player: the head of the queue, if there is one,
    becomes the current segment and is handed to the audio element when the
    ref is bound. *)
Lemma playNextAudio_idle (s : State) :
  isPlaying s = false ->
  currentAudio s = None ->
  currentAudio (playNextAudio s) = head (audioQueue s)
  /\ isPlaying (playNextAudio s) = marker (head (audioQueue s))
  /\ plays (trace (playNextAudio s))
     = match head (audioQueue s), audioPlayer s with
       | Some h, Some _ => url h :: plays (trace s)
       | _, _ => plays (trace s)
       end.
Proof.
  intros Hp Hc. unfold playNextAudio. rewrite Hp.
  destruct (audioQueue s) as [|h q]; cbn [head marker].
  - repeat split; assumption.
  - destruct (audioPlayer s) eqn:Ea; cbn; rewrite ?Ea; repeat split.
Qed.

Lemma Bound_Some (s : State) (a : AudioElement) :
  Bound s -> audioPlayer s = Some a -> phase s = Mounted.
Proof.
  unfold Bound. intros H E. rewrite E in H. cbn in H.
  destruct (phase s); [discriminate H | reflexivity | discriminate H].
Qed.

Lemma Bound_None (s : State) :
  Bound s -> audioPlayer s = None -> phase s <> Mounted.
Proof.
  unfold Bound. intros H E. rewrite E in H. cbn in H.
  intros Hm. rewrite Hm in H. discriminate H.
Qed.

(** The invariant is set up by [playNextAudio] on an idle player whose
    queue holds the segments that are not finished. *)
Lemma AudioInv_start (arr finished : list AudioSegment) (s : State) :
  arr = finished ++ audioQueue s ->
  currentAudio s = None ->
  isPlaying s = false ->
  Bound s ->
  (phase s = Created -> arr = []) ->
  PlayedOk s finished ->
  AudioInv arr (playNextAudio s).
Proof.
  intros Harr Hc Hp Hb H0 Hok.
  destruct (playNextAudio_frame s) as (Eq & Eph & Eb & _ & _).
  destruct (playNextAudio_idle s Hp Hc) as (Ec & Ei & Et).
  exists finished. rewrite Eq, Ec, Ei, Eph.
  split; [exact Harr|]. split; [reflexivity|]. split; [reflexivity|].
  split; [unfold Bound; rewrite Eb, Eph; exact Hb|].
  split; [exact H0|].
  unfold PlayedOk, played in *. rewrite Eph, Et.
  destruct (audioQueue s) as [|h q] eqn:Eqs; cbn [head option_list].
  - rewrite app_nil_r. exact Hok.
  - destruct (audioPlayer s) as [a|] eqn:Ea.
    + rewrite (Bound_Some s a Hb Ea) in Hok |- *.
      cbn [rev]. rewrite Hok, map_app. reflexivity.
    + pose proof (Bound_None s Hb Ea) as Hm.
      destruct (phase s) eqn:Eps.
      * specialize (H0 eq_refl). rewrite H0 in Harr.
        destruct finished; discriminate Harr.
      * contradiction.
      * rewrite map_app. apply prefix_app_r. exact Hok.
Qed.

(** Completion and failure of the current segment. *)
Lemma AudioInv_advance (arr : list AudioSegment) (s : State) :
  AudioInv arr s ->
  AudioInv arr
    (playNextAudio
       (set_isPlaying false
          (set_currentAudio None (set_audioQueue (tail (audioQueue s)) s)))).
Proof.
  intros (finished & Harr & Hc & Hp & Hb & H0 & Hok).
  apply (AudioInv_start arr (finished ++ option_list (currentAudio s)));
    try reflexivity; try assumption.
  rewrite Harr, Hc. cbn [audioQueue set_isPlaying set_currentAudio set_audioQueue].
  destruct (audioQueue s); cbn; rewrite <- ?app_assoc; reflexivity.
Qed.

(** An update that leaves playback alone keeps the invariant. *)
Lemma AudioInv_view (arr : list AudioSegment) (s s' : State) :
  audioView s' = audioView s -> AudioInv arr s -> AudioInv arr s'.
Proof.
  unfold audioView. intros [= Eq Ec Ep Eb Eph Et].
  unfold AudioInv, Bound, PlayedOk, played.
  rewrite Eq, Ec, Ep, Eb, Eph, Et. tauto.
Qed.

Lemma onAudioEnded_AudioInv (arr : list AudioSegment) (s : State) :
  AudioInv arr s -> AudioInv arr (onAudioEnded s).
Proof.
  intros H. unfold onAudioEnded; cbn zeta.
  apply (AudioInv_advance arr (addToLog "音频播放完成" s)).
  apply (AudioInv_view arr s); [reflexivity|exact H].
Qed.

Lemma onAudioError_AudioInv (arr : list AudioSegment) (message : field)
    (s : State) :
  AudioInv arr s -> AudioInv arr (onAudioError message s).
Proof.
  intros H. unfold onAudioError; cbn zeta.
  apply (AudioInv_advance arr (addToLog _ s)).
  apply (AudioInv_view arr s); [reflexivity|exact H].
Qed.

(** A segment is put on the queue; playback starts when nothing plays,
    whichever of the two markers the guard reads. *)
Lemma AudioInv_enqueue (arr : list AudioSegment) (seg : AudioSegment)
    (s : State) :
  AudioInv arr s ->
  phase s <> Created ->
  let s1 := set_audioQueue (audioQueue s ++ [seg]) s in
  AudioInv (arr ++ [seg])
    (match currentAudio s1 with None => playNextAudio s1 | Some _ => s1 end)
  /\ AudioInv (arr ++ [seg]) (if isPlaying s1 then s1 else playNextAudio s1).
Proof.
  intros (finished & Harr & Hc & Hp & Hb & H0 & Hok) Hph s1.
  assert (Hidle : currentAudio s = None -> AudioInv (arr ++ [seg]) (playNextAudio s1)).
  { intros Ec. apply (AudioInv_start _ finished); try assumption.
    - rewrite Harr, <- app_assoc. reflexivity.
    - change (isPlaying s = false). rewrite Hp, Ec. reflexivity.
    - intros E. contradiction.
    - rewrite Ec in Hok. cbn in Hok. rewrite app_nil_r in Hok. exact Hok. }
  assert (Hbusy : forall h, currentAudio s = Some h -> AudioInv (arr ++ [seg]) s1).
  { intros h Ec. exists finished.
    split; [rewrite Harr, <- app_assoc; reflexivity|].
    split.
    - change (currentAudio s = head (audioQueue s ++ [seg])).
      rewrite Hc in Ec |- *. destruct (audioQueue s); [discriminate Ec|].
      reflexivity.
    - repeat split; try assumption. intros E. contradiction. }
  change (currentAudio s1) with (currentAudio s).
  change (isPlaying s1) with (isPlaying s). rewrite Hp.
  destruct (currentAudio s) as [h|] eqn:Ec; cbn [marker]; split; eauto.
Qed.

Lemma handleServerMessage_AudioInv (arr : list AudioSegment) (data : Data)
    (s : State) :
  AudioInv arr s ->
  phase s <> Created ->
  AudioInv (arr ++ segmentsOf s data) (handleServerMessage data s).
Proof.
  intros H Hph.
  assert (Hsame : forall s', audioView s' = audioView s ->
                             AudioInv (arr ++ []) s').
  { intros s' E. rewrite app_nil_r. apply (AudioInv_view arr s); assumption. }
  destruct data as [error|m]; [apply Hsame; reflexivity|].
  destruct m as [cid|st|st|txt|content|au|msg|txt au|];
    cbn [segmentsOf handleServerMessage dispatch];
    try (apply Hsame; reflexivity).
  - apply Hsame. destruct (bool_decide _); reflexivity.
  - apply Hsame. destruct (bool_decide _); reflexivity.
  - apply Hsame. unfold handleLLMStreamChunk. view.
  - unfold handleLLMResponse. destruct (truthy au).
    + apply (AudioInv_enqueue arr _ s H Hph).
    + apply Hsame; reflexivity.
  - unfold handleTTSSentenceComplete.
    destruct (truthy au); [|destruct txt; apply Hsame; reflexivity].
    destruct txt as [t|]; [|apply Hsame; reflexivity].
    cbn zeta.
    apply (AudioInv_enqueue arr _ (addToLog _ s)); [|exact Hph].
    apply (AudioInv_view arr s); [reflexivity|exact H].
Qed.

(** The playback handlers leave the phase, the sockets and the timers. *)
Lemma playback_handlers_conn (s : State) :
  (forall data,
     phase (handleServerMessage data s) = phase s
     /\ sockets (handleServerMessage data s) = sockets s
     /\ timers (handleServerMessage data s) = timers s)
  /\ (phase (onAudioEnded s) = phase s
      /\ sockets (onAudioEnded s) = sockets s
      /\ timers (onAudioEnded s) = timers s)
  /\ (forall message,
        phase (onAudioError message s) = phase s
        /\ sockets (onAudioError message s) = sockets s
        /\ timers (onAudioError message s) = timers s)
  /\ (forall message,
        phase (playRejected message s) = phase s
        /\ sockets (playRejected message s) = sockets s
        /\ timers (playRejected message s) = timers s).
Proof.
  repeat match goal with |- _ /\ _ => split | |- forall _, _ => intros end;
    unfold playRejected, onAudioError, onAudioEnded, handleServerMessage,
      dispatch, handleTTSSentenceComplete, handleLLMResponse,
      handleLLMStreamChunk, playAudioResponse, playNextAudio;
    try (destruct data as [|[]]); frame.
Qed.

Lemma Bound_Created (s : State) :
  Bound s -> phase s = Created -> audioPlayer s = None.
Proof.
  unfold Bound. intros H E. rewrite E in H.
  destruct (audioPlayer s); [discriminate H|reflexivity].
Qed.

(** Nothing connects or schedules before the component is mounted. *)
Lemma step_Idle (s : State) (ev : Event) :
  Bound s -> Idle s -> Idle (step s ev).
Proof.
  intros Hb Hi Hph'.
  destruct (playback_handlers_conn s) as (Hm & He & Hr & Hj).
  assert (Hph : phase s = Created).
  { destruct (playback_event ev) eqn:Ev.
    - destruct ev; try discriminate Ev; cbn [step] in Hph'.
      + destruct (phase s) eqn:E; [reflexivity | congruence | congruence].
      + destruct (phase s) eqn:E;
          [reflexivity | discriminate Hph' | congruence].
      + unfold socketEvent in Hph'.
        destruct (sockets s !! i) as [w|]; [|exact Hph'].
        destruct (receiving _); [|exact Hph'].
        destruct (playback_handlers_conn
                    (set_sockets (<[i:=set_readyState (readyState w) w]> (sockets s)) s))
          as (Hm' & _).
        destruct (Hm' data) as (E & _). rewrite E in Hph'. exact Hph'.
      + unfold audioEvent in Hph'. destruct (audioPlayer s); [|exact Hph'].
        destruct (bool_decide _); [exact Hph'|].
        destruct He as (E & _). rewrite E in Hph'. exact Hph'.
      + unfold audioEvent in Hph'. destruct (audioPlayer s); [|exact Hph'].
        destruct (bool_decide _); [exact Hph'|].
        destruct (Hr None) as (E & _). rewrite E in Hph'. exact Hph'.
      + destruct (has_effect _ _); [|exact Hph'].
        destruct (Hj message) as (E & _). rewrite E in Hph'. exact Hph'.
    - pose proof (step_view s ev Ev) as E. unfold audioView in E.
      injection E as _ _ _ _ E _. rewrite E in Hph'. exact Hph'. }
  destruct (Hi Hph) as [Hs Ht]. pose proof (Bound_Created s Hb Hph) as Ha.
  destruct ev; cbn [step] in *;
    unfold ui, socketEvent, timerFired, audioEvent in *;
    rewrite ?Hph, ?Hs, ?Ht, ?Ha; rewrite ?Hph in Hph';
    cbn [lookup list_lookup List.find]; rewrite ?lookup_nil;
    try (split; first [assumption | reflexivity]).
  - destruct (has_effect _ _); [|split; assumption].
    destruct (Hj message) as (_ & -> & ->). split; assumption.
  - destruct (has_effect _ _); [|split; assumption].
    unfold modelsFetched. destruct r as [| |[|]]; split; assumption.
  - destruct (has_effect _ _); [|split; assumption].
    unfold historyCreated, updateParams, openSocket.
    destruct r; try (split; assumption). cbn zeta. split; frame.
Qed.

Lemma unmounted_view (s : State) :
  audioQueue (unmounted s) = audioQueue s
  /\ currentAudio (unmounted s) = currentAudio s
  /\ isPlaying (unmounted s) = isPlaying s
  /\ plays (trace (unmounted s)) = plays (trace s)
  /\ audioPlayer (unmounted s) = None
  /\ phase (unmounted s) = Unmounted.
Proof.
  unfold unmounted, stopHeartbeat.
  repeat match goal with |- _ /\ _ => split end; frame.
Qed.

Lemma Idle_socket_not_Created (s : State) (i : nat) (w : WebSocket) :
  Idle s -> sockets s !! i = Some w -> phase s <> Created.
Proof.
  intros Hi E Hph. destruct (Hi Hph) as [Hs _]. rewrite Hs in E.
  rewrite lookup_nil in E. discriminate E.
Qed.

(** Every event keeps the playback invariant, for the arrivals extended by
    what the event brings. *)
Lemma step_AudioInv (arr : list AudioSegment) (s : State) (ev : Event) :
  AudioInv arr s -> Idle s -> AudioInv (arr ++ arrival s ev) (step s ev).
Proof.
  intros H Hi. destruct (playback_event ev) eqn:Ev.
  - destruct ev; try discriminate Ev; cbn [step arrival];
      rewrite ?app_nil_r.
    + destruct (phase s) eqn:Eph; [|exact H|exact H].
      destruct H as (finished & Harr & Hc & Hp & Hb & H0 & Hok).
      exists finished. repeat match goal with |- _ /\ _ => split end;
        try assumption; try reflexivity.
      * intros E. discriminate E.
      * unfold PlayedOk in *. rewrite Eph in Hok. exact Hok.
    + destruct (phase s) eqn:Eph; [exact H| |exact H].
      destruct (unmounted_view s) as (Eq & Ec & Ep & Et & Ea & Eu).
      destruct H as (finished & Harr & Hc & Hp & Hb & H0 & Hok).
      exists finished. rewrite Eq, Ec, Ep.
      repeat match goal with |- _ /\ _ => split end; try assumption.
      * unfold Bound. rewrite Ea, Eu. reflexivity.
      * rewrite Eu. intros E. discriminate E.
      * unfold PlayedOk, played in *. rewrite Eu, Et. rewrite Eph in Hok.
        rewrite Hok. reflexivity.
    + unfold socketEvent, receives.
      destruct (sockets s !! i) as [w|] eqn:Ew;
        [|rewrite app_nil_r; exact H].
      destruct (receiving _); [|rewrite app_nil_r; exact H].
      apply (handleServerMessage_AudioInv arr data (set_sockets _ s)).
      * apply (AudioInv_view arr s); [reflexivity|exact H].
      * apply (Idle_socket_not_Created s i w Hi Ew).
    + unfold audioEvent. destruct (audioPlayer s); [|exact H].
      destruct (bool_decide _); [exact H|].
      apply onAudioEnded_AudioInv, H.
    + unfold audioEvent. destruct (audioPlayer s); [|exact H].
      destruct (bool_decide _); [exact H|].
      apply onAudioError_AudioInv, H.
    + destruct (has_effect _ _); [|exact H]. unfold playRejected.
      apply onAudioError_AudioInv.
      apply (AudioInv_view arr s); [reflexivity|exact H].
  - replace (arrival s ev) with (@nil AudioSegment)
      by (destruct ev; try reflexivity; discriminate Ev).
    rewrite app_nil_r. apply (AudioInv_view arr s); [|exact H].
    apply step_view, Ev.
Qed.

Lemma arrivals_snoc (s : State) (evs : list Event) (ev : Event) :
  arrivals s (evs ++ [ev]) = arrivals s evs ++ arrival (run s evs) ev.
Proof.
  revert s. induction evs as [|e evs IH]; intros s; cbn [arrivals app].
  - rewrite app_nil_r. reflexivity.
  - rewrite IH, app_assoc. reflexivity.
Qed.

Lemma AudioInv_Bound (arr : list AudioSegment) (s : State) :
  AudioInv arr s -> Bound s.
Proof. intros (? & _ & _ & _ & H & _). exact H. Qed.

Lemma run_AudioInv (p : Platform) (c : Clock) (evs : list Event) :
  AudioInv (arrivals (init p c) evs) (run (init p c) evs)
  /\ Idle (run (init p c) evs).
Proof.
  induction evs as [|ev evs [IH1 IH2]] using rev_ind.
  - split.
    + exists []. repeat match goal with |- _ /\ _ => split end; reflexivity.
    + intros _. split; reflexivity.
  - rewrite run_snoc, arrivals_snoc. split.
    + apply step_AudioInv; assumption.
    + apply step_Idle; [apply (AudioInv_Bound _ _ IH1)|exact IH2].
Qed.

(** *** Segments that ended *)





(** *** The source of the audio element *)





Example three_segments_play_in_order :
  played (run connected [tts "/u1"; tts "/u2"; tts "/u3"])
  = ["http://localhost:8000/u1"]
  /\ played (run connected [tts "/u1"; tts "/u2"; tts "/u3"; EvAudioEnded])
     = ["http://localhost:8000/u1"; "http://localhost:8000/u2"]
  /\ played (run connected [tts "/u1"; tts "/u2"; tts "/u3"; EvAudioEnded;
                            EvAudioError; EvAudioEnded])
     = ["http://localhost:8000/u1"; "http://localhost:8000/u2";
        "http://localhost:8000/u3"]
  /\ audioQueue (run connected [tts "/u1"; tts "/u2"; tts "/u3"; EvAudioEnded;
                                EvAudioError; EvAudioEnded])
     = [].
Proof. vm_compute. repeat split. Qed.

(** The same run from [setup()]: three arrivals, three events that end a
    segment, and a fourth [ended] that finds nothing playing and is not
    counted. *)
Example three_segments_end :
  let evs := [EvMounted; EvClickConnect; EvOpen 0; tts "/u1"; tts "/u2";
              tts "/u3"; EvAudioEnded; EvAudioError; EvAudioEnded;
              EvAudioEnded] in
  map url (arrivals start evs) = map url [segment "1"; segment "2"; segment "3"]
  /\ ended start (removelast evs) = 3%nat
  /\ ended start evs = 3%nat
  /\ audioQueue (run start evs) = [].
Proof. vm_compute. repeat split. Qed.

(** *** The two markers *)

Lemma Synced_marker (s : State) :
  Synced s <-> isPlaying s = marker (currentAudio s).
Proof.
  unfold Synced. destruct (isPlaying s), (currentAudio s); cbn;
    intuition congruence.
Qed.

Lemma playNextAudio_Synced (s : State) : Synced s -> Synced (playNextAudio s).
Proof.
  rewrite !Synced_marker. intros H. unfold playNextAudio.
  destruct (audioQueue s); [exact H|].
  destruct (isPlaying s) eqn:Ep; [rewrite Ep; exact H|].
  cbn zeta. destruct (audioPlayer _); reflexivity.
Qed.

Lemma idle_Synced (s : State) :
  Synced (set_isPlaying false (set_currentAudio None s)).
Proof. apply Synced_marker. reflexivity. Qed.

(** C8: after any run [isPlaying] is true exactly when [currentAudio] is not
    null; each playback operation keeps this from any state in which it
    holds; and after any run each enqueue path does the same with the other
    path's guard. *)
Theorem isPlaying_iff_currentAudio
    (p : Platform) (c : Clock) (evs : list Event) :
  let s := run (init p c) evs in
  (isPlaying s = true <-> currentAudio s <> None)
  /\ (forall s0, Synced s0 ->
        Synced (playNextAudio s0)
        /\ Synced (onAudioEnded s0)
        /\ (forall message, Synced (onAudioError message s0))
        /\ (forall audio_url, Synced (playAudioResponse audio_url s0))
        /\ (forall t audio_url,
              Synced (outcome (handleTTSSentenceComplete t audio_url s0))))
  /\ (forall t audio_url,
        handleTTSSentenceComplete t audio_url s
        = handleTTSSentenceComplete_alt t audio_url s)
  /\ (forall audio_url,
        playAudioResponse audio_url s = playAudioResponse_alt audio_url s).
Proof.
  intros s. destruct (run_AudioInv p c evs) as [H _].
  destruct H as (finished & _ & _ & Hp & _). fold s in Hp.
  split; [apply Synced_marker, Hp|]. split.
  - intros s0 H0. split; [apply playNextAudio_Synced, H0|].
    split; [apply playNextAudio_Synced, idle_Synced|].
    split; [intros; apply playNextAudio_Synced, idle_Synced|].
    split.
    + intros u. unfold playAudioResponse; cbn zeta.
      match goal with
      | |- Synced (match _ with Some _ => ?s1 | None => _ end) =>
          assert (H1 : Synced s1) by (apply Synced_marker, Synced_marker, H0);
          change (currentAudio s1) with (currentAudio s0)
      end.
      destruct (currentAudio s0); [exact H1|apply playNextAudio_Synced, H1].
    + intros t u. unfold handleTTSSentenceComplete.
      destruct (truthy u); [|exact H0]. destruct t; [|exact H0].
      cbn zeta. cbn [outcome].
      match goal with
      | |- Synced (if _ then ?s1 else _) =>
          assert (H1 : Synced s1) by (apply Synced_marker, Synced_marker, H0);
          change (isPlaying s1) with (isPlaying s0)
      end.
      destruct (isPlaying s0); [exact H1|apply playNextAudio_Synced, H1].
  - split.
    + intros t u. unfold handleTTSSentenceComplete, handleTTSSentenceComplete_alt.
      destruct (truthy u); [|reflexivity]. destruct t; [|reflexivity].
      cbn zeta. f_equal.
      change (isPlaying (set_audioQueue _ (addToLog _ s))) with (isPlaying s).
      change (currentAudio (set_audioQueue _ (addToLog _ s)))
        with (currentAudio s).
      rewrite Hp. destruct (currentAudio s); reflexivity.
    + intros u. unfold playAudioResponse, playAudioResponse_alt. cbn zeta.
      change (isPlaying (set_audioQueue _ s)) with (isPlaying s).
      change (currentAudio (set_audioQueue _ s)) with (currentAudio s).
      rewrite Hp. destruct (currentAudio s); reflexivity.
Qed.

(** *** The end of a segment *)

Lemma Advanced_intro (arr : list AudioSegment) (s mid : State) :
  AudioInv arr s ->
  isPlaying s = true ->
  audioView mid
  = (tail (audioQueue s), None, false, marker (audioPlayer s), phase s,
     plays (trace s)) ->
  Advanced s (playNextAudio mid).
Proof.
  intros (finished & _ & Hc & Hp & Hb & _) Hplay.
  unfold audioView. intros [= Eq Ec Ep Ea Eph Et].
  destruct (playNextAudio_frame mid) as (Fq & _).
  destruct (playNextAudio_idle mid Ep Ec) as (Ic & Ii & It).
  unfold Advanced, played. rewrite Fq, Ic, Ii, It, Eq, Et.
  rewrite Hplay in Hp. unfold Bound in Hb.
  destruct (currentAudio s) as [h0|]; [|discriminate Hp].
  destruct (audioQueue s) as [|h q]; [discriminate Hc|].
  cbn [tail length].
  split; [reflexivity|]. split; [reflexivity|]. split; [reflexivity|].
  split; [reflexivity|]. split.
  - destruct q as [|h' q']; cbn [head option_list map].
    + destruct (phase s); rewrite app_nil_r; reflexivity.
    + destruct (audioPlayer mid), (audioPlayer s); try discriminate Ea;
        cbn in Hb; destruct (phase s); try discriminate Hb;
        rewrite ?app_nil_r; reflexivity.
  - exists mid. repeat split; assumption.
Qed.

(** One call of [onAudioEnded] or of [onAudioError], after any run in which
    a segment is playing: the head is taken off the queue, both markers are
    cleared, and the new head, if there is one, is started from that
    state. *)
Lemma segment_end_advances_queue
    (p : Platform) (c : Clock) (evs : list Event) (message : field) :
  let s := run (init p c) evs in
  isPlaying s = true ->
  Advanced s (onAudioEnded s) /\ Advanced s (onAudioError message s).
Proof.
  intros s Hplay. destruct (run_AudioInv p c evs) as [H _]. fold s in H.
  split.
  - unfold onAudioEnded; cbn zeta.
    apply (Advanced_intro _ s _ H Hplay). reflexivity.
  - unfold onAudioError; cbn zeta.
    apply (Advanced_intro _ s _ H Hplay). reflexivity.
Qed.

Lemma segment_end_advances_queue_witness :
  isPlaying (run start twoQueued) = true
  /\ Advanced (run start twoQueued) (onAudioEnded (run start twoQueued))
  /\ Advanced (run start twoQueued) (onAudioError None (run start twoQueued)).
Proof.
  split; [reflexivity|].
  apply (segment_end_advances_queue localhost noon twoQueued None).
  reflexivity.
Defined.

(** C6, at the failing input: three segments are queued on the connected
    client, the first is playing, and its source fails to load.  The audio
    element fires [error], bound to [onAudioError] by the template, and the
    promise of [play()] rejects, whose [catch] calls [onAudioError] as well.
    The first call drops the failing segment and starts the second; the
    second call drops the second segment, which has neither ended nor
    failed, and starts the third.  One failure shortens the queue by two,
    in whichever order the two calls come. *)
Theorem failing_source_drops_two_segments :
  let s := threeQueued in
  let rejected := EvPlayRejected (Some "NotSupportedError") in
  let s1 := step s EvAudioError in
  let s2 := step s1 rejected in
  audioQueue s = [segment "1"; segment "2"; segment "3"]
  /\ currentAudio s = Some (segment "1")
  /\ played s = map url [segment "1"]
  /\ audioQueue s1 = [segment "2"; segment "3"]
  /\ currentAudio s1 = Some (segment "2")
  /\ played s1 = map url [segment "1"; segment "2"]
  /\ audioQueue s2 = [segment "3"]
  /\ currentAudio s2 = Some (segment "3")
  /\ played s2 = map url [segment "1"; segment "2"; segment "3"]
  /\ length (audioQueue s) = (length (audioQueue s2) + 2)%nat
  /\ audioQueue (run s [rejected; EvAudioError]) = [segment "3"].
Proof. vm_compute. repeat split. Qed.

(** * Further properties *)

(** ** Flags *)

Lemma step_isSpeaking (s : State) (ev : Event) :
  isSpeaking s = false -> isSpeaking (step s ev) = false.
Proof. intros H. step_cases ev ltac:(first [exact H | reflexivity]). Qed.

(** X1: [isSpeaking] is false after every run: the script only ever writes
    false to it, so the speaking indicator of the template never shows. *)
Theorem isSpeaking_is_never_set (p : Platform) (c : Clock) (evs : list Event) :
  isSpeaking (run (init p c) evs) = false.
Proof.
  apply (run_invariant (fun s => isSpeaking s = false)).
  - reflexivity.
  - apply step_isSpeaking.
Qed.

Lemma step_voice_connected (s : State) (ev : Event) :
  isVoiceChatting s = false \/ isConnected s = true ->
  isVoiceChatting (step s ev) = false \/ isConnected (step s ev) = true.
Proof.
  intros H. destruct ev; cbn [step];
    lazymatch goal with
    | |- context [startVoiceChat] => idtac
    | _ =>
        unfold_handlers;
        try match goal with data : Data |- _ => destruct data as [|[]] end;
        by_cases ltac:(first [ exact H | left; reflexivity | right; reflexivity
                             | left; assumption | right; assumption
                             | destruct H as [H|H];
                               first [discriminate H | left; exact H
                                     | right; exact H] ])
    end.
  unfold ui. destruct (phase s); try exact H.
  destruct (negb (startBtnDisabled s)) eqn:E; [|exact H].
  right. unfold startBtnDisabled in E.
  destruct (isConnected s) eqn:Ec; [|discriminate E].
  unfold startVoiceChat. destruct (openSocket s); exact Ec.
Qed.

(** X2: after every run, a voice chat is only on while the client counts as
    connected: [isVoiceChatting] false or [isConnected] true. *)
Theorem voice_chat_only_while_connected
    (p : Platform) (c : Clock) (evs : list Event) :
  let s := run (init p c) evs in
  isVoiceChatting s = false \/ isConnected s = true.
Proof.
  apply (run_invariant
           (fun s => isVoiceChatting s = false \/ isConnected s = true)).
  - left; reflexivity.
  - apply step_voice_connected.
Qed.

(** ** Frames *)

(** X3: one event sends at most one frame, and sends it on the current
    socket, which is open when the event arrives. *)
Theorem frames_go_to_the_open_socket (s : State) (ev : Event) :
  sends (trace (step s ev)) = sends (trace s)
  \/ exists i f,
       openSocket s = Some i
       /\ sends (trace (step s ev)) = (i, f) :: sends (trace s).
Proof.
  step_cases ev
    ltac:(first [ left; reflexivity
                | right; eexists _, _; split;
                  [first [reflexivity | eassumption] | reflexivity] ]).
Qed.

(** X4: an inbound frame, of any kind and however it is decoded, leaves the
    connection, the session and the pending timers as they are, and makes no
    call on the platform but playing audio and writing to the console. *)
Theorem messages_leave_the_connection (data : Data) (s : State) :
  connectionView (handleServerMessage data s) = connectionView s.
Proof.
  unfold connectionView. unfold_handlers. destruct data as [|[]];
    by_cases ltac:(reflexivity).
Qed.

(** ** The status line *)

Lemma step_StatusOk (s : State) (ev : Event) :
  StatusOk s -> StatusOk (step s ev).
Proof.
  intros H.
  step_cases ev
    ltac:(first [ exact H | left; reflexivity | right; left; reflexivity
                | right; right; left; reflexivity
                | right; right; right; left; reflexivity ]).
Qed.

(** X5: after every run the status line and its class are one of the four
    pairs that the script sets: 未连接 or 连接失败 with disconnected, 正在连接...
    with processing, 已连接 with connected. *)
Theorem status_is_one_of_four (p : Platform) (c : Clock) (evs : list Event) :
  In (connectionStatusText (run (init p c) evs),
      connectionStatusClass (run (init p c) evs))
     statusPairs.
Proof.
  apply (run_invariant StatusOk).
  - intros. left. reflexivity.
  - apply step_StatusOk.
Qed.

Lemma step_platform (s : State) (ev : Event) :
  platform (step s ev) = platform s.
Proof. step_cases ev ltac:(reflexivity). Qed.

Lemma run_platform (p : Platform) (c : Clock) (evs : list Event) :
  platform (run (init p c) evs) = p.
Proof.
  induction evs as [|ev evs IH] using rev_ind; [reflexivity|].
  rewrite run_snoc, step_platform. exact IH.
Qed.

(** ** Streaming text, in general *)

Lemma update_first_length {A : Type} (q : A -> bool) (f : A -> A)
    (l : list A) :
  length (update_first q f l) = length l.
Proof.
  induction l as [|x l IH]; [reflexivity|]. cbn [update_first].
  destruct (q x); cbn [length]; [reflexivity|]. rewrite IH. reflexivity.
Qed.

Lemma building_not_rendered (s : State) :
  StatusOk s -> ~ In "assistant-response-building" (renderedClasses s).
Proof.
  intros Hs. unfold renderedClasses.
  destruct (phase s); [intros [] | | intros []].
  intros H. rewrite !in_app_iff in H. destruct H as [H|[H|[H|[H|[H|H]]]]].
  - cbn in H. intuition discriminate.
  - unfold StatusOk, statusPairs in Hs. cbn [In] in Hs.
    destruct Hs as [Hs|[Hs|[Hs|[Hs|[]]]]]; injection Hs as _ Hc;
      rewrite <- Hc in H; vm_compute in H; intuition discriminate.
  - destruct (isVoiceChatting s), (isSpeaking s); cbn in H;
      intuition discriminate.
  - apply in_map_iff in H as (m & Hm & _).
    destruct (String.eqb (sender m) "user"); discriminate Hm.
  - destruct (isPlaying s); cbn in H; intuition discriminate.
  - destruct (_ && _); cbn in H; intuition discriminate.
Qed.

(** X6: after every run, on a page that has no element of class
    assistant-response-building outside the component, every stream chunk
    adds one new assistant entry with empty text and that class, and
    appends its text to the first entry of that class in the conversation
    (the new one only when there was none). *)
Theorem every_chunk_adds_an_entry
    (p : Platform) (c : Clock) (evs : list Event) (content : field) :
  no_foreign_building p = true ->
  let s := run (init p c) evs in
  conversationHistory (handleLLMStreamChunk content s)
  = update_first is_building (appended content)
      (conversationHistory s ++ [building ""])
  /\ length (conversationHistory (handleLLMStreamChunk content s))
     = S (length (conversationHistory s)).
Proof.
  intros Hp s.
  assert (Hq : querySelector_class "assistant-response-building" s = false).
  { unfold querySelector_class. apply bool_decide_eq_false_2.
    rewrite list_elem_of_In, in_app_iff. intros [H|H].
    - unfold s in H. rewrite run_platform in H.
      unfold no_foreign_building in Hp. apply negb_true_iff in Hp.
      assert (Hex : existsb (String.eqb "assistant-response-building")
                      (document_other p) = true).
      { apply existsb_exists. eexists. split; [exact H|].
        apply String.eqb_refl. }
      rewrite Hex in Hp. discriminate Hp.
    - apply (building_not_rendered s); [|exact H].
      apply (run_invariant StatusOk); [intros; left; reflexivity|].
      apply step_StatusOk. }
  assert (E : conversationHistory (handleLLMStreamChunk content s)
              = update_first is_building (appended content)
                  (conversationHistory s ++ [building ""])).
  { unfold handleLLMStreamChunk. rewrite Hq. reflexivity. }
  split; [exact E|].
  rewrite E, update_first_length, length_app. cbn. lia.
Qed.

Lemma every_chunk_adds_an_entry_witness :
  no_foreign_building localhost = true
  /\ conversationHistory (handleLLMStreamChunk (Some "He") connected)
     = update_first is_building (appended (Some "He"))
         (conversationHistory connected ++ [building ""])
  /\ length (conversationHistory (handleLLMStreamChunk (Some "He") connected))
     = S (length (conversationHistory connected)).
Proof.
  split; [reflexivity|].
  apply (every_chunk_adds_an_entry localhost noon
           [EvMounted; EvClickConnect; EvOpen 0] (Some "He")).
  reflexivity.
Defined.

(** ** Models and histories *)

Lemma step_ModelOk (s : State) (ev : Event) : ModelOk s -> ModelOk (step s ev).
Proof.
  intros H. destruct ev; cbn [step];
    lazymatch goal with
    | |- context [modelsFetched] => idtac
    | |- context [set_selectedModel] => idtac
    | _ =>
        unfold_handlers;
        try match goal with data : Data |- _ => destruct data as [|[]] end;
        by_cases ltac:(exact H)
    end.
  - unfold ui. destruct (phase s); try exact H.
    destruct (bool_decide _) eqn:E; [|exact H].
    apply bool_decide_eq_true_1, list_elem_of_In in E.
    assert (Hv : ModelOk (set_selectedModel v s)).
    { unfold ModelOk, modelOptions in *. cbn.
      destruct (availableModels s); [right; exact E|exact I]. }
    revert Hv. generalize (set_selectedModel v s). intros s' Hv.
    unfold updateParams. by_cases ltac:(exact Hv).
  - destruct (has_effect _ _); [|exact H]. unfold modelsFetched.
    destruct r as [error| |[models|]]; try exact H; [|exact I].
    unfold ModelOk. cbn. destruct models as [|m models]; [left; reflexivity|].
    cbn. unfold js_or. destruct (String.eqb m ""); [left|right; left];
      reflexivity.
Qed.

(** X7: after every run in which a model list is held, the selected model
    is the empty string or one of the list.  An answer with a list stores
    it and selects its first element (the empty string for a list that is
    empty or starts with it).  An answer without a list stores undefined,
    so that no model is offered any more, keeps the model selected before,
    and only adds a log line. *)
Theorem selected_model_is_offered_while_a_list_is_held
    (p : Platform) (c : Clock) (evs : list Event) (models : list string) :
  let s := run (init p c) evs in
  let s1 := modelsFetched (FetchOk (Some models)) s in
  let s2 := modelsFetched (FetchOk None) s in
  (forall offered,
     availableModels s = Some offered ->
     selectedModel s = "" \/ In (selectedModel s) offered)
  /\ availableModels s1 = Some models
  /\ selectedModel s1 = default "" (head models)
  /\ availableModels s2 = None
  /\ modelOptions s2 = []
  /\ selectedModel s2 = selectedModel s
  /\ s2 = addToLog noModelList (set_availableModels None s).
Proof.
  intros s s1 s2. split.
  - pose proof (run_invariant ModelOk) as H. unfold ModelOk in H.
    intros offered E. specialize (H (fun _ _ => or_introl eq_refl)
                                    step_ModelOk p c evs).
    fold s in H. rewrite E in H. exact H.
  - split; [reflexivity|]. split; [|repeat split].
    unfold s1. cbn. unfold js_or.
    destruct models as [|m ?]; [reflexivity|]. cbn.
    destruct (String.eqb m "") eqn:E; [|reflexivity].
    apply String.eqb_eq in E. symmetry. exact E.
Qed.

(** A selection that outlives its list: the first answer offers and selects
    m1, the second has no list. *)
Example stale_selection :
  let s := run connected [EvModelsFetched (FetchOk (Some ["m1"; "m2"]));
                          EvModelsFetched (FetchOk None)] in
  selectedModel s = "m1" /\ availableModels s = None /\ modelOptions s = [].
Proof. vm_compute. repeat split. Qed.


(** ** The conversation *)

Lemma evolves_refl (e : ConversationEntry) : evolves e e.
Proof. repeat split. Qed.

Lemma evolves_trans (e1 e2 e3 : ConversationEntry) :
  evolves e1 e2 -> evolves e2 e3 -> evolves e1 e3.
Proof.
  intros (Hs1 & Hc1 & H1) (Hs2 & Hc2 & H2).
  split; [congruence|]. split; [congruence|].
  intros Hb. rewrite <- (H1 Hb). apply H2.
  rewrite (H1 Hb). exact Hb.
Qed.

Lemma Forall2_evolves_refl (l : list ConversationEntry) : Forall2 evolves l l.
Proof. induction l; constructor; [apply evolves_refl|assumption]. Qed.

Lemma extends_refl (l : list ConversationEntry) : extends l l.
Proof.
  exists l, []. split; [rewrite app_nil_r; reflexivity|].
  apply Forall2_evolves_refl.
Qed.

Lemma extends_snoc (l : list ConversationEntry) (e : ConversationEntry) :
  extends l (l ++ [e]).
Proof. exists l, [e]. split; [reflexivity|apply Forall2_evolves_refl]. Qed.

Lemma extends_trans (l1 l2 l3 : list ConversationEntry) :
  extends l1 l2 -> extends l2 l3 -> extends l1 l3.
Proof.
  intros (k1 & x1 & -> & H1) (k2 & x2 & -> & H2).
  apply Forall2_app_inv_l in H2 as (k21 & k22 & H21 & H22 & ->).
  exists k21, (k22 ++ x2). split; [rewrite app_assoc; reflexivity|].
  eapply Forall2_trans; [|exact H1|exact H21].
  intros ? ? ?. apply evolves_trans.
Qed.

Lemma Forall2_evolves_update (content : field) (l : list ConversationEntry) :
  Forall2 evolves l (update_first is_building (appended content) l).
Proof.
  induction l as [|e l IH]; [constructor|]. cbn [update_first].
  destruct (is_building e) eqn:E.
  - constructor; [|apply Forall2_evolves_refl].
    split; [reflexivity|]. split; [reflexivity|].
    intros Hb. rewrite Hb in E. discriminate E.
  - constructor; [apply evolves_refl|exact IH].
Qed.

Lemma extends_update (content : field) (l l' : list ConversationEntry) :
  extends l l' ->
  extends l (update_first is_building (appended content) l').
Proof.
  intros H. apply (extends_trans l l'); [exact H|].
  eexists _, []. split; [rewrite app_nil_r; reflexivity|].
  apply Forall2_evolves_update.
Qed.

Lemma step_extends (s : State) (ev : Event) :
  extends (conversationHistory s) (conversationHistory (step s ev)).
Proof.
  step_cases ev
    ltac:(first [ exact (extends_refl _) | exact (extends_snoc _ _)
                | apply extends_update;
                  first [exact (extends_refl _) | exact (extends_snoc _ _)] ]).
Qed.

(** X9: the conversation only grows: over any run, and any run continued,
    the earlier entries keep their places, senders and classes, new entries
    come after them, and an entry that is not being built (a recognised
    user text) is never changed. *)
Theorem conversation_only_grows
    (p : Platform) (c : Clock) (evs1 evs2 : list Event) :
  let s := run (init p c) evs1 in
  extends (conversationHistory s) (conversationHistory (run s evs2)).
Proof.
  intros s. induction evs2 as [|ev evs IH] using rev_ind.
  - apply extends_refl.
  - rewrite run_snoc. eapply extends_trans; [exact IH|apply step_extends].
Qed.

(** ** Timers *)

Lemma ids_filter_sublist (id : nat) (l : list Timer) :
  timer_id <$> filter (fun t => timer_id t <> id) l
  `sublist_of` timer_id <$> l.
Proof. apply fmap_sublist, sublist_filter. Qed.

Lemma Forall_sublist_of {A : Type} (P : A -> Prop) (l1 l2 : list A) :
  l1 `sublist_of` l2 -> Forall P l2 -> Forall P l1.
Proof.
  intros Hs H. apply Forall_forall. intros x Hx.
  rewrite Forall_forall in H. apply H. eapply elem_of_sublist; eassumption.
Qed.

Lemma TimersOk_frame (f : State -> State) :
  (forall s, timers (f s) = timers s
             /\ nextTimer (f s) = nextTimer s
             /\ connectionTimeout <$> sockets (f s)
                = connectionTimeout <$> sockets s
             /\ progressInterval (f s) = progressInterval s) ->
  forall s, TimersOk s -> TimersOk (f s).
Proof.
  intros Hf s. destruct (Hf s) as (Et & En & Es & Ep).
  unfold TimersOk, Fresh, PB. rewrite Et, En, Es, Ep. tauto.
Qed.

Lemma TimersOk_filter (id : nat) (s : State) :
  TimersOk s ->
  TimersOk (set_timers (filter (fun t => timer_id t <> id) (timers s)) s).
Proof.
  intros ((Hz & Hn & Hlt & Hs) & (H0 & Hp)).
  split; [split; [|split; [|split]]|split]; cbn.
  - exact Hz.
  - eapply sublist_NoDup; [exact Hn|apply ids_filter_sublist].
  - eapply Forall_sublist_of; [apply ids_filter_sublist|exact Hlt].
  - exact Hs.
  - exact H0.
  - apply Forall_filter_timers. exact Hp.
Qed.

Lemma TimersOk_clearTimer (id : nat) (s : State) :
  TimersOk s -> TimersOk (clearTimer id s).
Proof.
  intros H. unfold clearTimer.
  apply (TimersOk_frame (emit _)); [intros; repeat split; reflexivity|].
  apply TimersOk_filter, H.
Qed.

Lemma TimersOk_expire (id : nat) (s : State) :
  TimersOk s -> TimersOk (expire id s).
Proof. apply TimersOk_filter. Qed.

Lemma Fresh_add (k : TimerKind) (delay : Z) (s : State) :
  Fresh s ->
  Fresh (set_nextTimer (S (nextTimer s))
           (set_timers (timers s ++ [mkTimer (nextTimer s) k delay]) s)).
Proof.
  intros (Hz & Hn & Hlt & Hs). split; [|split; [|split]]; cbn.
  - discriminate.
  - rewrite fmap_app. apply NoDup_app. split; [exact Hn|]. split.
    + intros x Hx Hin. cbn in Hin. apply list_elem_of_singleton in Hin.
      subst x. rewrite Forall_forall in Hlt. specialize (Hlt _ Hx). lia.
    + cbn. apply NoDup_singleton.
  - rewrite fmap_app. apply Forall_app. split.
    + eapply Forall_impl; [exact Hlt|]. cbn. intros; lia.
    + cbn. constructor; [lia|constructor].
  - eapply Forall_impl; [exact Hs|]. cbn. intros; lia.
Qed.

Lemma TimersOk_add (k : TimerKind) (delay : Z) (s : State) :
  k <> TProgress ->
  TimersOk s ->
  TimersOk (set_nextTimer (S (nextTimer s))
              (set_timers (timers s ++ [mkTimer (nextTimer s) k delay]) s)).
Proof.
  intros Hk (Hf & H0 & Hp). split; [apply Fresh_add, Hf|].
  split; [exact H0|]. cbn. apply Forall_app. split; [exact Hp|].
  constructor; [|constructor]. cbn. intros E. contradiction.
Qed.

Lemma TimersOk_setTimeout (k : TimerKind) (delay : Z) (s : State) :
  k <> TProgress -> TimersOk s -> TimersOk (setTimeout k delay s).
Proof.
  intros Hk H. unfold setTimeout.
  apply (TimersOk_frame (emit _)); [intros; repeat split; reflexivity|].
  apply TimersOk_add; assumption.
Qed.

Lemma TimersOk_setInterval (k : TimerKind) (delay : Z) (s : State) :
  k <> TProgress -> TimersOk s -> TimersOk (setInterval k delay s).
Proof.
  intros Hk H. unfold setInterval.
  apply (TimersOk_frame (emit _)); [intros; repeat split; reflexivity|].
  apply TimersOk_add; assumption.
Qed.

Lemma timeouts_alter (g : ReadyState -> ReadyState) (i : nat)
    (l : list WebSocket) :
  connectionTimeout <$> alter (fun w => set_readyState (g (readyState w)) w) i l
  = connectionTimeout <$> l.
Proof.
  revert i. induction l as [|w l IH]; intros [|i]; cbn; try reflexivity.
  f_equal. apply IH.
Qed.

Lemma timeouts_insert (r : ReadyState) (i : nat) (w : WebSocket)
    (l : list WebSocket) :
  l !! i = Some w ->
  connectionTimeout <$> <[i:=set_readyState r w]> l = connectionTimeout <$> l.
Proof.
  revert i. induction l as [|w' l IH]; intros [|i] E; cbn in *;
    try discriminate E; try reflexivity.
  - injection E as ->. reflexivity.
  - f_equal. apply IH, E.
Qed.

Lemma TimersOk_sockets (ws : list WebSocket) (s : State) :
  connectionTimeout <$> ws = connectionTimeout <$> sockets s ->
  TimersOk s -> TimersOk (set_sockets ws s).
Proof.
  intros E ((Hz & Hn & Hlt & Hs) & Hp). split; [|exact Hp].
  split; [exact Hz|]. split; [exact Hn|]. split; [exact Hlt|].
  cbn. rewrite E. exact Hs.
Qed.

Lemma TimersOk_socket_close (i : nat) (s : State) :
  TimersOk s -> TimersOk (socket_close i s).
Proof.
  intros H. unfold socket_close.
  apply (TimersOk_frame (emit _)); [intros; repeat split; reflexivity|].
  apply TimersOk_sockets; [apply (timeouts_alter closing)|exact H].
Qed.

Lemma TimersOk_connectWebSocket_open (s : State) :
  TimersOk s -> TimersOk (connectWebSocket_open s).
Proof.
  intros H. unfold connectWebSocket_open; cbn zeta.
  destruct (ws_url_error _ _).
  - unfold handleConnectionError; cbn zeta. destruct (_ <? _).
    + apply TimersOk_setTimeout; [discriminate|]. exact H.
    + exact H.
  - destruct H as ((Hz & Hn & Hlt & Hs) & H0 & Hp).
    split; [split; [|split; [|split]]|split]; cbn.
    + discriminate.
    + rewrite fmap_app. apply NoDup_app. split; [exact Hn|]. split.
      * intros x Hx Hin. cbn in Hin. apply list_elem_of_singleton in Hin.
        subst x. rewrite Forall_forall in Hlt. specialize (Hlt _ Hx). lia.
      * cbn. apply NoDup_singleton.
    + rewrite fmap_app. apply Forall_app. split.
      * eapply Forall_impl; [exact Hlt|]. cbn. intros; lia.
      * cbn. constructor; [lia|constructor].
    + rewrite fmap_app. apply Forall_app. split.
      * eapply Forall_impl; [exact Hs|]. cbn. intros; lia.
      * cbn. constructor; [lia|constructor].
    + exact H0.
    + apply Forall_app. split; [exact Hp|].
      constructor; [|constructor]. cbn. intros E. discriminate E.
Qed.

Lemma PB_no_progress (s : State) :
  PB s ->
  match handle_truthy (progressInterval s) with
  | Some id =>
      Forall (fun t => timer_kind t <> TProgress)
        (filter (fun t => timer_id t <> id) (timers s))
  | None => Forall (fun t => timer_kind t <> TProgress) (timers s)
  end.
Proof.
  intros (H0 & Hp).
  destruct (handle_truthy (progressInterval s)) as [id|] eqn:E.
  - apply handle_truthy_Some in E as [E _].
    apply Forall_forall. intros t Hin Hk.
    apply list_elem_of_filter in Hin as [Hne Hin].
    rewrite Forall_forall in Hp. specialize (Hp t Hin Hk).
    rewrite E in Hp. injection Hp as ->. apply Hne. reflexivity.
  - apply handle_truthy_None in E as [E|E]; [|contradiction].
    eapply Forall_impl; [exact Hp|]. cbn. intros t Hk Hk'.
    rewrite (Hk Hk') in E. discriminate E.
Qed.

Lemma TimersOk_startProgressUpdate (s : State) :
  TimersOk s -> TimersOk (startProgressUpdate s).
Proof.
  intros H. pose proof (PB_no_progress s (proj2 H)) as Hnone.
  unfold startProgressUpdate; cbn zeta.
  assert (H1 : exists s1,
             (match handle_truthy (progressInterval s) with
              | Some id => clearTimer id s
              | None => s
              end) = s1
             /\ Fresh s1
             /\ Forall (fun t => timer_kind t <> TProgress) (timers s1)).
  { destruct (handle_truthy (progressInterval s)) as [id|].
    - eexists. split; [reflexivity|].
      split; [apply (TimersOk_clearTimer id s H)|exact Hnone].
    - eexists. split; [reflexivity|]. split; [apply H|exact Hnone]. }
  destruct H1 as (s1 & -> & Hf & Hn).
  split.
  - apply (Fresh_add TProgress 100 s1 Hf).
  - destruct Hf as (Hz & _). split; cbn.
    + intros [= E]. contradiction.
    + apply Forall_app. split.
      * eapply Forall_impl; [exact Hn|]. cbn. intros t Hk Hk'. contradiction.
      * constructor; [|constructor]. reflexivity.
Qed.

(** Peels a handler off the goal, as [hb_step] does. *)
Ltac tm_step :=
  lazymatch goal with
  | |- TimersOk (setTimeout _ _ _) =>
      apply TimersOk_setTimeout; [discriminate|]
  | |- TimersOk (setInterval _ _ _) =>
      apply TimersOk_setInterval; [discriminate|]
  | |- TimersOk (clearTimer _ _) => apply TimersOk_clearTimer
  | |- TimersOk (expire _ _) => apply TimersOk_expire
  | |- TimersOk (socket_close _ _) => apply TimersOk_socket_close
  | |- TimersOk (connectWebSocket_open _) =>
      apply TimersOk_connectWebSocket_open
  | |- TimersOk (startProgressUpdate _) => apply TimersOk_startProgressUpdate
  | |- TimersOk (set_sockets (<[_:=_]> _) _) =>
      apply TimersOk_sockets; [apply timeouts_insert; eassumption|]
  | |- TimersOk (?f ?s) =>
      apply (TimersOk_frame f); [intros; repeat split; reflexivity|]
  end.

Lemma step_TimersOk (s : State) (ev : Event) :
  TimersOk s -> TimersOk (step s ev).
Proof.
  intros H. destruct ev; cbn [step];
    unfold ui, socketEvent, timerFired, audioEvent,
      mounted, unmounted, connectWebSocket, afterGrace,
      connectionTimedOut, disconnectWebSocket, onopen, handleDisconnect,
      handleConnectionError, startHeartbeat, heartbeatTick, stopHeartbeat,
      fetchAvailableModels, createNewHistory, historyCreated, modelsFetched,
      updateParams, startVoiceChat, stopVoiceChat, handleServerMessage,
      messageError, dispatch, handleTTSSentenceComplete, handleError,
      handleLLMResponse, handleLLMStreamChunk, handleRecognitionResult,
      playAudioResponse, playRejected, onAudioError, onAudioEnded,
      onAudioCanPlay, progressTick, playNextAudio;
    try match goal with data : Data |- _ => destruct data as [|[]] end;
    repeat (assumption || tm_step || split_match).
Qed.

Lemma run_TimersOk (p : Platform) (c : Clock) (evs : list Event) :
  TimersOk (run (init p c) evs).
Proof.
  apply (run_invariant TimersOk); [|apply step_TimersOk].
  intros. split; [split; [|split; [|split]]|split]; cbn;
    try constructor; try discriminate.
Qed.

(** ** The heartbeat, in general *)

Lemma filter_none {A : Type} (q : A -> bool) (l : list A) :
  Forall (fun x => q x = false) l -> List.filter q l = [].
Proof.
  induction 1 as [|x l Hx _ IH]; [reflexivity|].
  cbn. rewrite Hx. exact IH.
Qed.

Lemma filter_same_id_length (q : Timer -> bool) (a : nat) (l : list Timer) :
  NoDup (timer_id <$> l) ->
  Forall (fun t => q t = true -> timer_id t = a) l ->
  (length (List.filter q l) <= 1)%nat.
Proof.
  induction l as [|t l IH]; intros Hn Ha; [cbn; lia|].
  rewrite fmap_cons in Hn. apply NoDup_cons in Hn as [Hnotin Hn].
  apply Forall_cons in Ha as [Ht Ha]. cbn [List.filter].
  destruct (q t) eqn:Eq; [|apply IH; assumption].
  rewrite filter_none; [cbn; lia|].
  apply Forall_forall. intros y Hy.
  destruct (q y) eqn:Ey; [|reflexivity].
  exfalso. apply Hnotin. rewrite Forall_forall in Ha.
  rewrite (Ht eq_refl), <- (Ha y Hy Ey).
  apply list_elem_of_fmap. exists y. split; [reflexivity|exact Hy].
Qed.

(** X10: after every run at most one heartbeat timer is pending, and it is
    the one [heartbeatInterval] holds; when the heartbeat fires in such a
    state it sends one ping with the current time on the open socket and
    changes nothing else, or, when no socket is open, stops the heartbeat
    altogether. *)
Theorem heartbeat_is_single_and_stops_itself
    (p : Platform) (c : Clock) (evs : list Event) :
  let s := run (init p c) evs in
  (length (List.filter is_heartbeat (timers s)) <= 1)%nat
  /\ Forall (fun t => is_heartbeat t = true ->
                      heartbeatInterval s = Some (timer_id t)) (timers s)
  /\ match openSocket s with
     | Some i => heartbeatTick s = emit (SocketSend i (Ping (date_now (clock s)))) s
     | None => heartbeatStopped (heartbeatTick s)
     end.
Proof.
  intros s. pose proof (HB_run p c evs) as Hhb. fold s in Hhb.
  destruct (run_TimersOk p c evs) as ((_ & Hn & _) & _). fold s in Hn.
  assert (Hheld : Forall (fun t => is_heartbeat t = true ->
                                   heartbeatInterval s = Some (timer_id t))
                    (timers s)).
  { destruct Hhb as (_ & _ & Ht). eapply Forall_impl; [exact Ht|]. cbn.
    intros t Hk Hb. apply Hk. unfold is_heartbeat in Hb.
    destruct (timer_kind t); try discriminate Hb. reflexivity. }
  split; [|split; [exact Hheld|]].
  - destruct (heartbeatInterval s) as [h|] eqn:Eh.
    + apply (filter_same_id_length is_heartbeat h); [exact Hn|].
      eapply Forall_impl; [exact Hheld|]. cbn. intros t Ht Hb.
      specialize (Ht Hb). injection Ht as ->. reflexivity.
    + rewrite filter_none; [cbn; lia|].
      eapply Forall_impl; [exact Hheld|]. cbn. intros t Ht.
      destruct (is_heartbeat t); [|reflexivity].
      specialize (Ht eq_refl). discriminate Ht.
  - unfold heartbeatTick. destruct (openSocket s); [reflexivity|].
    apply stopHeartbeat_stops, Hhb.
Qed.

(** ** Opening *)

Lemma stopHeartbeat_keeps (s : State) :
  isConnected (stopHeartbeat s) = isConnected s
  /\ reconnectCount (stopHeartbeat s) = reconnectCount s
  /\ connectionStatusText (stopHeartbeat s) = connectionStatusText s
  /\ connectionStatusClass (stopHeartbeat s) = connectionStatusClass s
  /\ sockets (stopHeartbeat s) = sockets s
  /\ nextTimer (stopHeartbeat s) = nextTimer s
  /\ has_effect is_fetch_models (stopHeartbeat s)
     = has_effect is_fetch_models s.
Proof.
  unfold stopHeartbeat. destruct (handle_truthy _); repeat split.
Qed.

Lemma stopHeartbeat_requests (s : State) :
  modelRequests (trace (stopHeartbeat s)) = modelRequests (trace s).
Proof. unfold stopHeartbeat. destruct (handle_truthy _); reflexivity. Qed.

Lemma stopHeartbeat_timers (P : Timer -> Prop) (s : State) :
  Forall P (timers s) -> Forall P (timers (stopHeartbeat s)).
Proof.
  intros H. unfold stopHeartbeat. destruct (handle_truthy _); [|exact H].
  cbn. apply Forall_filter_timers, H.
Qed.

Lemma find_timer_none (id : nat) (l : list Timer) :
  Forall (fun t => timer_id t <> id) l ->
  List.find (fun t => Nat.eqb (timer_id t) id) l = None.
Proof.
  induction 1 as [|t l Ht _ IH]; [reflexivity|]. cbn.
  destruct (Nat.eqb (timer_id t) id) eqn:E; [|exact IH].
  apply Nat.eqb_eq in E. contradiction.
Qed.

(** X11: after every run, when a socket that is connecting opens, the
    client counts as connected, the reconnect counter is 0, the status is
    已连接 with class connected, one request for the model list is made at
    this open (the trace has one more than before), exactly one heartbeat
    timer is pending (every 10000 ms, the one [heartbeatInterval]
    holds), and the connection timeout of that socket is cleared: when its
    time comes nothing happens. *)
Theorem open_connects_and_cancels_timeout
    (p : Platform) (c : Clock) (evs : list Event) (i : nat) (w : WebSocket) :
  let s := run (init p c) evs in
  sockets s !! i = Some w ->
  readyState w = CONNECTING ->
  let s' := step s (EvOpen i) in
  isConnected s' = true
  /\ reconnectCount s' = 0
  /\ connectionStatusText s' = "已连接"
  /\ connectionStatusClass s' = "connected"
  /\ sockets s' !! i = Some (set_readyState OPEN w)
  /\ modelRequests (trace s') = S (modelRequests (trace s))
  /\ (exists id,
        heartbeatInterval s' = Some id
        /\ List.filter is_heartbeat (timers s') = [mkTimer id THeartbeat 10000])
  /\ step s' (EvTimer (connectionTimeout w)) = s'.
Proof.
  intros s Hw Hr s'.
  pose proof (HB_run p c evs) as Hhb. fold s in Hhb.
  destruct (run_TimersOk p c evs) as ((_ & _ & _ & Hct) & _). fold s in Hct.
  assert (Hlt : (connectionTimeout w < nextTimer s)%nat).
  { rewrite Forall_forall in Hct. apply Hct.
    apply list_elem_of_fmap. exists w. split; [reflexivity|].
    eapply list_elem_of_lookup_2, Hw. }
  unfold s'. cbn [step]. unfold socketEvent. rewrite Hw, Hr. cbn [is_connecting].
  unfold onopen, startHeartbeat, fetchAvailableModels; cbn zeta.
  match goal with
  | |- context [stopHeartbeat ?x] => set (s1 := x)
  end.
  assert (H1 : HB s1) by (unfold s1; hb).
  destruct (stopHeartbeat_stops s1 H1) as [_ [Hh2 Ht2]].
  destruct (stopHeartbeat_keeps s1) as (Kc & Kr & Kt & Kk & Ks & Kn & Kf).
  assert (Hne : Forall (fun t => timer_id t <> connectionTimeout w)
                  (timers (stopHeartbeat s1))).
  { apply stopHeartbeat_timers. unfold s1. cbn.
    apply Forall_forall. intros t Ht.
    apply list_elem_of_filter in Ht as [Ht _]. exact Ht. }
  set (s2 := stopHeartbeat s1) in *.
  split; [exact Kc|]. split; [exact Kr|]. split; [exact Kt|].
  split; [exact Kk|]. split.
  { cbn [sockets set_heartbeatInterval setInterval emit set_trace set_nextTimer
         set_timers]. rewrite Ks. unfold s1. cbn.
    apply list_lookup_insert_eq. eapply lookup_lt_Some, Hw. }
  split.
  { change (modelRequests (trace s2) = S (modelRequests (trace s))).
    unfold s2. rewrite stopHeartbeat_requests. reflexivity. }
  split.
  { exists (nextTimer s2). split; [reflexivity|]. cbn.
    rewrite List.filter_app, filter_none; [reflexivity|].
    eapply Forall_impl; [exact Ht2|]. cbn. intros t Hk. unfold is_heartbeat.
    destruct (timer_kind t); try reflexivity. contradiction. }
  cbn [step]. unfold timerFired.
  rewrite find_timer_none; [reflexivity|].
  cbn. apply Forall_app. split; [exact Hne|].
  constructor; [|constructor]. cbn. rewrite Kn. unfold s1. cbn. lia.
Qed.

Lemma open_connects_and_cancels_timeout_witness :
  let s := run start [EvMounted; EvClickConnect] in
  let s' := step s (EvOpen 0) in
  sockets s !! 0%nat = Some (mkWebSocket CONNECTING 1)
  /\ isConnected s' = true
  /\ reconnectCount s' = 0
  /\ connectionStatusText s' = "已连接"
  /\ connectionStatusClass s' = "connected"
  /\ sockets s' !! 0%nat = Some (set_readyState OPEN (mkWebSocket CONNECTING 1))
  /\ modelRequests (trace s') = S (modelRequests (trace s))
  /\ (exists id,
        heartbeatInterval s' = Some id
        /\ List.filter is_heartbeat (timers s') = [mkTimer id THeartbeat 10000])
  /\ step s' (EvTimer 1) = s'.
Proof.
  split; [reflexivity|].
  apply (open_connects_and_cancels_timeout localhost noon
           [EvMounted; EvClickConnect] 0%nat (mkWebSocket CONNECTING 1));
    reflexivity.
Defined.

(** ** Teardown *)

Lemma closed_socket_is_not_open (i : nat) (s : State) :
  socket s = Some i -> openSocket (socket_close i s) = None.
Proof.
  intros E. unfold openSocket.
  change (socket (socket_close i s)) with (socket s). rewrite E.
  change (sockets (socket_close i s))
    with (alter (fun w => set_readyState (closing (readyState w)) w) i
            (sockets s)).
  rewrite list_lookup_alter_eq.
  destruct (sockets s !! i) as [w|]; [|reflexivity].
  cbn. destruct (readyState w); reflexivity.
Qed.

(** Unmounting stops both intervals and leaves [socket] not open. *)
Lemma unmounted_stops_timers
    (p : Platform) (c : Clock) (evs : list Event) :
  let s := run (init p c) evs in
  phase s = Mounted ->
  let s' := step s EvUnmounted in
  Forall (fun t => is_heartbeat t = false /\ is_progress t = false) (timers s')
  /\ heartbeatInterval s' = None
  /\ openSocket s' = None
  /\ audioPlayer s' = None
  /\ phase s' = Unmounted.
Proof.
  intros s Hph s'. unfold s'. cbn [step]. rewrite Hph.
  pose proof (HB_run p c evs) as Hhb. fold s in Hhb.
  pose proof (run_TimersOk p c evs) as Hok. fold s in Hok.
  destruct (stopHeartbeat_stops s Hhb) as [_ [Hh1 Ht1]].
  assert (Hok1 : TimersOk (stopHeartbeat s)).
  { unfold stopHeartbeat. repeat (assumption || tm_step || split_match). }
  unfold unmounted; cbn zeta. set (s1 := stopHeartbeat s) in *.
  assert (H2 : exists s2,
             (match socket s1 with
              | Some i => socket_close i s1
              | None => s1
              end) = s2
             /\ TimersOk s2 /\ timers s2 = timers s1
             /\ heartbeatInterval s2 = None /\ openSocket s2 = None).
  { destruct (socket s1) as [i|] eqn:Es.
    - eexists. split; [reflexivity|].
      split; [apply TimersOk_socket_close, Hok1|].
      split; [reflexivity|]. split; [exact Hh1|].
      apply closed_socket_is_not_open, Es.
    - eexists. split; [reflexivity|]. split; [exact Hok1|].
      split; [reflexivity|]. split; [exact Hh1|].
      unfold openSocket. rewrite Es. reflexivity. }
  destruct H2 as (s2 & -> & Hok2 & Et2 & Hh2 & Ho2).
  pose proof (PB_no_progress s2 (proj2 Hok2)) as Hnp.
  rewrite <- Et2 in Ht1.
  destruct (handle_truthy (progressInterval s2)) as [id|].
  - split; [|repeat split; assumption]. cbn.
    apply Forall_forall. intros t Ht.
    rewrite Forall_forall in Hnp. specialize (Hnp t Ht).
    apply list_elem_of_filter in Ht as [_ Ht].
    rewrite Forall_forall in Ht1. specialize (Ht1 t Ht).
    unfold is_heartbeat, is_progress.
    destruct (timer_kind t); try contradiction; split; reflexivity.
  - split; [|repeat split; assumption]. cbn.
    apply Forall_forall. intros t Ht.
    rewrite Forall_forall in Hnp. specialize (Hnp t Ht).
    rewrite Forall_forall in Ht1. specialize (Ht1 t Ht).
    unfold is_heartbeat, is_progress.
    destruct (timer_kind t); try contradiction; split; reflexivity.
Qed.

(** [onUnmounted] calls [close()] on the current socket and on no other. *)
Lemma unmounted_sockets (s : State) :
  socket (unmounted s) = socket s
  /\ sockets (unmounted s)
     = match socket s with
       | Some i =>
           alter (fun w => set_readyState (closing (readyState w)) w) i
             (sockets s)
       | None => sockets s
       end.
Proof.
  unfold unmounted, stopHeartbeat.
  destruct (handle_truthy (heartbeatInterval s)); cbn;
    destruct (socket s) eqn:E; cbn;
    destruct (handle_truthy (progressInterval s));
    split; cbn; rewrite ?E; reflexivity.
Qed.

(** X12: after every run, unmounting the mounted component leaves no
    heartbeat timer and no progress timer pending and clears the heartbeat
    handle.  It calls [close()] on the current socket, which is then
    closing or closed, so that [socket] is not open; every other socket is
    left as it is, an open one open. *)
Theorem unmount_closes_the_current_socket_only
    (p : Platform) (c : Clock) (evs : list Event) :
  let s := run (init p c) evs in
  phase s = Mounted ->
  let s' := step s EvUnmounted in
  Forall (fun t => is_heartbeat t = false /\ is_progress t = false) (timers s')
  /\ heartbeatInterval s' = None
  /\ socket s' = socket s
  /\ sockets s'
     = match socket s with
       | Some i =>
           alter (fun w => set_readyState (closing (readyState w)) w) i
             (sockets s)
       | None => sockets s
       end
  /\ openSocket s' = None
  /\ (forall j, socket s <> Some j -> sockets s' !! j = sockets s !! j)
  /\ audioPlayer s' = None
  /\ phase s' = Unmounted.
Proof.
  intros s Hph s'.
  destruct (unmounted_stops_timers p c evs Hph) as (Ht & Hh & Ho & Ha & Hu).
  fold s in Ht, Hh, Ho, Ha, Hu. fold s' in Ht, Hh, Ho, Ha, Hu.
  assert (Es : socket s' = socket s /\ sockets s'
     = match socket s with
       | Some i =>
           alter (fun w => set_readyState (closing (readyState w)) w) i
             (sockets s)
       | None => sockets s
       end).
  { unfold s'. cbn [step]. rewrite Hph. apply unmounted_sockets. }
  destruct Es as [Es Ew].
  repeat match goal with |- _ /\ _ => split end; try assumption.
  intros j Hj. rewrite Ew. destruct (socket s) as [i|]; [|reflexivity].
  apply list_lookup_alter_ne. intros ->. apply Hj. reflexivity.
Qed.

Lemma unmount_closes_the_current_socket_only_witness :
  let s := connected in
  let s' := step s EvUnmounted in
  phase s = Mounted
  /\ Forall (fun t => is_heartbeat t = false /\ is_progress t = false)
       (timers s')
  /\ heartbeatInterval s' = None
  /\ socket s' = socket s
  /\ sockets s'
     = match socket s with
       | Some i =>
           alter (fun w => set_readyState (closing (readyState w)) w) i
             (sockets s)
       | None => sockets s
       end
  /\ openSocket s' = None
  /\ (forall j, socket s <> Some j -> sockets s' !! j = sockets s !! j)
  /\ audioPlayer s' = None
  /\ phase s' = Unmounted.
Proof.
  split; [reflexivity|].
  apply (unmount_closes_the_current_socket_only localhost noon
           [EvMounted; EvClickConnect; EvOpen 0]).
  reflexivity.
Defined.

(** A socket that is open and no longer current survives the unmount:
    after three clicks on connect the second wait replaces the socket that
    the first wait created and that has opened meanwhile. *)
Example unmount_leaves_a_replaced_socket_open :
  let s := run start overlappingConnects in
  phase s = Unmounted
  /\ socket s = Some 2%nat
  /\ map readyState (sockets s) = [CLOSED; OPEN; CLOSING].
Proof. vm_compute. repeat split. Qed.

(** ** A constructor that throws *)

Lemma openSocket_none (s : State) : socket s = None -> openSocket s = None.
Proof. intros E. unfold openSocket. rewrite E. reflexivity. Qed.

Lemma step_Offline (s : State) (ev : Event) :
  rejects_all (platform s) -> Offline s -> Offline (step s ev).
Proof.
  intros Hrej (Hs & Hsock & Hc & Hsent).
  assert (Habsurd : forall i w, sockets s !! i = Some w -> False).
  { intros i w E. rewrite Hs, lookup_nil in E. discriminate E. }
  repeat match goal with |- _ /\ _ => split | |- Offline _ => unfold Offline end;
    step_cases ev
      ltac:(first
              [ exact Hs | exact Hsock | exact Hc | exact Hsent | reflexivity
              | assumption | discriminate Hsock | discriminate Hc
              | exfalso;
                match goal with
                | E : ws_url_error _ _ = None |- _ => exact (Hrej _ E)
                | E : sockets s !! _ = Some _ |- _ => exact (Habsurd _ _ E)
                | E : socket ?x = Some _ |- _ =>
                    pose proof (Hsock : socket x = None) as Hx;
                    rewrite Hx in E; discriminate E
                | E : openSocket ?x = Some _ |- _ =>
                    rewrite (openSocket_none x Hsock) in E; discriminate E
                end ]).
Qed.

(** X13: when the WebSocket constructor rejects every URL, then after every
    run no socket exists, [socket] is null, the client does not count as
    connected and no frame was ever sent. *)
Theorem rejected_urls_never_connect
    (p : Platform) (c : Clock) (evs : list Event) :
  rejects_all p ->
  let s := run (init p c) evs in
  sockets s = [] /\ socket s = None /\ isConnected s = false
  /\ sends (trace s) = [].
Proof.
  intros Hrej s. unfold s.
  induction evs as [|ev evs IH] using rev_ind.
  - repeat split.
  - rewrite run_snoc. apply step_Offline; [|exact IH].
    rewrite run_platform. exact Hrej.
Qed.

Lemma rejected_urls_never_connect_witness :
  let s := run (init offline noon)
             [EvMounted; EvClickConnect; EvTimer 1; EvTimer 2; EvTimer 3;
              EvClickConnect] in
  rejects_all offline
  /\ sockets s = [] /\ socket s = None /\ isConnected s = false
  /\ sends (trace s) = [].
Proof.
  assert (H : rejects_all offline) by (intros u; discriminate).
  split; [exact H|].
  apply (rejected_urls_never_connect offline noon
           [EvMounted; EvClickConnect; EvTimer 1; EvTimer 2; EvTimer 3;
            EvClickConnect] H).
Defined.

(** ** The progress interval *)

(** X14: after every run at most one progress timer is pending; and when
    the audio element can play, the progress goes back to 0 and exactly one
    progress timer (every 100 ms, the one [progressInterval] holds) is
    pending afterwards, whatever was pending before. *)
Theorem progress_interval_is_single
    (p : Platform) (c : Clock) (evs : list Event) :
  let s := run (init p c) evs in
  let s' := onAudioCanPlay s in
  (length (List.filter is_progress (timers s)) <= 1)%nat
  /\ audioProgress s' = 0%Q
  /\ progressInterval s' = Some (nextTimer s)
  /\ List.filter is_progress (timers s') = [mkTimer (nextTimer s) TProgress 100].
Proof.
  intros s s'.
  destruct (run_TimersOk p c evs) as ((_ & Hn & _) & Hpb). fold s in Hn, Hpb.
  assert (Hheld : Forall (fun t => is_progress t = true ->
                                   progressInterval s = Some (timer_id t))
                    (timers s)).
  { destruct Hpb as (_ & Ht). eapply Forall_impl; [exact Ht|]. cbn.
    intros t Hk Hb. apply Hk. unfold is_progress in Hb.
    destruct (timer_kind t); try discriminate Hb. reflexivity. }
  split.
  - destruct (progressInterval s) as [h|] eqn:Eh.
    + apply (filter_same_id_length is_progress h); [exact Hn|].
      eapply Forall_impl; [exact Hheld|]. cbn. intros t Ht Hb.
      specialize (Ht Hb). injection Ht as ->. reflexivity.
    + rewrite filter_none; [cbn; lia|].
      eapply Forall_impl; [exact Hheld|]. cbn. intros t Ht.
      destruct (is_progress t); [|reflexivity].
      specialize (Ht eq_refl). discriminate Ht.
  - pose proof (PB_no_progress s Hpb) as Hnone.
    assert (Hq : forall l, Forall (fun t => timer_kind t <> TProgress) l ->
                           List.filter is_progress l = []).
    { intros l Hl. apply filter_none. eapply Forall_impl; [exact Hl|].
      cbn. intros t Hk. unfold is_progress.
      destruct (timer_kind t); try reflexivity. contradiction. }
    unfold s', onAudioCanPlay, startProgressUpdate; cbn zeta.
    change (progressInterval (set_audioProgress 0%Q s))
      with (progressInterval s).
    destruct (handle_truthy (progressInterval s)).
    + split; [reflexivity|]. split; [reflexivity|]. cbn.
      rewrite List.filter_app, (Hq _ Hnone). reflexivity.
    + split; [reflexivity|]. split; [reflexivity|]. cbn.
      rewrite List.filter_app, (Hq _ Hnone). reflexivity.
Qed.

(** ** What leaves playback alone *)

(** X15: only mounting, unmounting, inbound frames and the events of the
    audio element touch playback: every other event (of the user, of a
    socket opening, closing or failing, of a timer, of the clock, of a
    fetch) leaves the queue, the current segment, [isPlaying] and the
    sources played as they are. *)
Theorem playback_is_untouched_by_other_events (s : State) (ev : Event) :
  match ev with
  | EvMounted | EvUnmounted | EvMessage _ _
  | EvAudioEnded | EvAudioError | EvPlayRejected _ => True
  | _ =>
      audioQueue (step s ev) = audioQueue s
      /\ currentAudio (step s ev) = currentAudio s
      /\ isPlaying (step s ev) = isPlaying s
      /\ played (step s ev) = played s
  end.
Proof.
  assert (H : playback_event ev = false ->
              audioQueue (step s ev) = audioQueue s
              /\ currentAudio (step s ev) = currentAudio s
              /\ isPlaying (step s ev) = isPlaying s
              /\ played (step s ev) = played s).
  { intros Hev. pose proof (step_view s ev Hev) as H. unfold audioView in H.
    injection H as Hq Hc Hp _ _ Ht. unfold played.
    rewrite Hq, Hc, Hp, Ht. repeat split. }
  destruct ev; try exact I; apply H; reflexivity.
Qed.

(** ** An error followed by a close *)

Lemma socketEvent_delivered (i : nat) (allowed : ReadyState -> bool)
    (r : ReadyState -> ReadyState) (handler : WebSocket -> State -> State)
    (s : State) (w : WebSocket) :
  sockets s !! i = Some w ->
  allowed (readyState w) = true ->
  socketEvent i allowed r handler s
  = handler w
      (set_sockets (<[i:=set_readyState (r (readyState w)) w]> (sockets s)) s).
Proof. intros E Ha. unfold socketEvent. rewrite E, Ha. reflexivity. Qed.

Lemma handleConnectionError_retries (error : string) (s : State) :
  reconnectCount s < maxReconnectAttempts ->
  reconnectCount (handleConnectionError error s) = reconnectCount s + 1
  /\ reconnects (trace (handleConnectionError error s))
     = reconnectDelay * (reconnectCount s + 1) :: reconnects (trace s).
Proof.
  intros H. apply Z.ltb_lt in H. unfold handleConnectionError; cbn zeta.
  change (reconnectCount (updateConnectionStatus _ _ (addToLog _ s)))
    with (reconnectCount s).
  rewrite H. split; reflexivity.
Qed.

Lemma handleDisconnect_retries (code : Z) (reason : string) (s : State) :
  code <> 1000 ->
  reconnectCount s < maxReconnectAttempts ->
  reconnectCount (handleDisconnect code reason s) = reconnectCount s + 1
  /\ reconnects (trace (handleDisconnect code reason s))
     = reconnectDelay * (reconnectCount s + 1) :: reconnects (trace s).
Proof.
  intros Hcode H. destruct (stopHeartbeat_count s) as [Hc Ht].
  unfold handleDisconnect; cbn zeta. set (s1 := stopHeartbeat s) in *.
  match goal with
  | |- context [if ?b then _ else _] =>
      replace b with true
  end.
  - split.
    + change (reconnectCount s1 + 1 = reconnectCount s + 1).
      rewrite Hc. reflexivity.
    + change (reconnectDelay * (reconnectCount s1 + 1) :: reconnects (trace s1)
              = reconnectDelay * (reconnectCount s + 1) :: reconnects (trace s)).
      rewrite Hc, Ht. reflexivity.
  - symmetry. apply andb_true_iff. split.
    + apply negb_true_iff, Z.eqb_neq, Hcode.
    + change ((reconnectCount s1 <? maxReconnectAttempts) = true).
      rewrite Hc. apply Z.ltb_lt, H.
Qed.

Lemma step_error_retries (s : State) (i : nat) (w : WebSocket) :
  sockets s !! i = Some w ->
  not_closed (readyState w) = true ->
  reconnectCount s < maxReconnectAttempts ->
  reconnectCount (step s (EvError i)) = reconnectCount s + 1
  /\ reconnects (trace (step s (EvError i)))
     = reconnectDelay * (reconnectCount s + 1) :: reconnects (trace s)
  /\ sockets (step s (EvError i)) !! i = Some w.
Proof.
  intros Hw Hr Hk. cbn [step].
  rewrite (socketEvent_delivered i not_closed _ _ s w Hw Hr).
  replace (set_readyState (readyState w) w) with w by (destruct w; reflexivity).
  rewrite list_insert_id by exact Hw. rewrite set_sockets_same.
  destruct (handleConnectionError_retries "[object Event]" s Hk) as [Hc Ht].
  split; [exact Hc|]. split; [exact Ht|].
  unfold handleConnectionError; cbn zeta. destruct (_ <? _); exact Hw.
Qed.

Lemma step_close_retries (s : State) (i : nat) (w : WebSocket)
    (code : Z) (reason : string) :
  sockets s !! i = Some w ->
  not_closed (readyState w) = true ->
  code <> 1000 ->
  reconnectCount s < maxReconnectAttempts ->
  reconnectCount (step s (EvClose i code reason)) = reconnectCount s + 1
  /\ reconnects (trace (step s (EvClose i code reason)))
     = reconnectDelay * (reconnectCount s + 1) :: reconnects (trace s).
Proof.
  intros Hw Hr Hcode Hk. cbn [step].
  rewrite (socketEvent_delivered i not_closed _ _ s w Hw Hr).
  apply (handleDisconnect_retries code reason (set_sockets _ s) Hcode Hk).
Qed.

(** X16: a transport error and the abnormal close that follows it each
    schedule a reconnect of their own: when a socket that is not closed
    fails and then closes with a code other than 1000, and the counter was
    at most 1, the counter goes up by two and two reconnects are scheduled,
    at 1000 ms times each of the two new counts. *)
Theorem error_then_close_schedules_twice
    (s : State) (i : nat) (w : WebSocket) (code : Z) (reason : string) :
  sockets s !! i = Some w ->
  not_closed (readyState w) = true ->
  code <> 1000 ->
  reconnectCount s + 1 < maxReconnectAttempts ->
  let s' := run s [EvError i; EvClose i code reason] in
  reconnectCount s' = reconnectCount s + 2
  /\ scheduled s'
     = scheduled s ++ [reconnectDelay * (reconnectCount s + 1);
                       reconnectDelay * (reconnectCount s + 2)].
Proof.
  intros Hw Hr Hcode Hk s'. unfold s', run. cbn [fold_left].
  destruct (step_error_retries s i w Hw Hr) as (Hc1 & Ht1 & Hw1); [lia|].
  destruct (step_close_retries (step s (EvError i)) i w code reason Hw1 Hr Hcode)
    as (Hc2 & Ht2); [rewrite Hc1; lia|].
  split.
  - rewrite Hc2, Hc1. lia.
  - unfold scheduled. rewrite Ht2, Ht1, Hc1. cbn [rev].
    rewrite <- app_assoc. cbn [app]. do 3 f_equal. lia.
Qed.

Lemma error_then_close_schedules_twice_witness :
  let s' := run connected [EvError 0; EvClose 0 1006 ""] in
  sockets connected !! 0%nat = Some (mkWebSocket OPEN 1)
  /\ reconnectCount s' = reconnectCount connected + 2
  /\ scheduled s'
     = scheduled connected
       ++ [reconnectDelay * (reconnectCount connected + 1);
           reconnectDelay * (reconnectCount connected + 2)].
Proof.
  split; [reflexivity|].
  apply (error_then_close_schedules_twice connected 0%nat (mkWebSocket OPEN 1)
           1006 "").
  - reflexivity.
  - reflexivity.
  - discriminate.
  - vm_compute. reflexivity.
Defined.

(** ** Connecting, and the connection timeout *)





